(** * SIMPA tissue-property compositing: a shallow embedding

    This development embeds three source files of the repository:

    - [simpa/utils/libraries/spectra_library.py]  (module [Spectra])
    - [simpa/utils/libraries/molecule_library.py] (module [Molecules])
    - [simpa/core/simulation_modules/volume_creation_module/
       volume_creation_module_model_based_adapter.py] (module [Compositor])

    Numbers.  Python floats and torch/numpy float arrays are embedded as exact
    rationals [Q]: every comparison of the source ([<=], [>], [!=]) becomes
    the corresponding decision on [Q] and every arithmetic operation is
    exact.  Equalities between computed numbers are therefore stated with
    [Qeq] ([==]).  Rounding is not part of the model.

    Objects.  Python exceptions are values of [exn]; a call that may raise
    returns a [result].  The one object that the source shares by reference,
    the [TissueProperties] record of a [MolecularComposition], lives in a
    store indexed by locations. *)

From Stdlib Require Import ZArith QArith Lqa Lia String.
From stdpp Require Import base option list.

Local Open Scope Z_scope.

(** ** Python and numpy primitives *)

Module Py.

Inductive exn : Type :=
| ValueError (msg : string)
| TypeError (msg : string)
| IndexError
| RuntimeError (msg : string).

Inductive result (A : Type) : Type :=
| Ok (a : A)
| Raise (e : exn).
Arguments Ok {A} a.
Arguments Raise {A} e.

#[export] Instance result_bind : MBind result := fun A B k r =>
  match r with
  | Ok a => k a
  | Raise e => Raise e
  end.
#[export] Instance result_ret : MRet result := @Ok.

(** Comparisons of floats: [x <= y] is [Qle_bool x y], [x == y] is
    [Qeq_bool x y], and [x < y] is the negation of [y <= x]. *)
Definition float_lt (x y : Q) : bool := negb (Qle_bool y x).

(** [int(x)] on a float: truncation towards zero. *)
Definition py_int (x : Q) : Z := Z.quot (Qnum x) (Zpos (Qden x)).

(** [a[i]] on a one-dimensional numpy array of length [n]: indices
    [0 .. n-1] address the array directly, indices [-n .. -1] count from
    the end, anything else raises [IndexError]. *)
Definition np_index (n : nat) (i : Z) : result nat :=
  if (0 <=? i) && (i <? Z.of_nat n) then Ok (Z.to_nat i)
  else if (- Z.of_nat n <=? i) && (i <? 0) then Ok (Z.to_nat (i + Z.of_nat n))
  else Raise IndexError.

Definition np_getitem {A} (a : list A) (i : Z) : result A :=
  k ← np_index (length a) i;
  match a !! k with
  | Some x => Ok x
  | None => Raise IndexError
  end.

(** [a[i] = x] on a one-dimensional numpy array. *)
Definition np_setitem {A} (a : list A) (i : Z) (x : A) : result (list A) :=
  k ← np_index (length a) i;
  Ok (<[k := x]> a).

(** [np.arange(lo, hi, 1)] on integers. *)
Definition np_arange (lo hi : Z) : list Z :=
  (fun k : nat => lo + Z.of_nat k) <$> seq 0 (Z.to_nat (hi - lo)).

(** [np.max] and [np.min] of an integer array; numpy raises [ValueError]
    on an empty array. *)
Definition np_max (a : list Z) : result Z :=
  match a with
  | [] => Raise (ValueError "zero-size array to reduction operation maximum which has no identity")
  | x :: r => Ok (foldr Z.max x r)
  end.

Definition np_min (a : list Z) : result Z :=
  match a with
  | [] => Raise (ValueError "zero-size array to reduction operation minimum which has no identity")
  | x :: r => Ok (foldr Z.min x r)
  end.

(** One evaluation of [np.interp(x, xp, fp)] for a sample [x] that is not
    left of the first sample point: walk to the last interval whose left
    end is [<= x]; on the last sample point, or exactly on a sample point,
    return its value; otherwise interpolate with
    [slope * (x - xp[j]) + fp[j]]. *)
Fixpoint interp_from (x : Q) (xp fp : list Q) : Q :=
  match xp, fp with
  | x0 :: ((x1 :: _) as xp'), y0 :: ((y1 :: _) as fp') =>
      if Qle_bool x1 x then interp_from x xp' fp'
      else if Qeq_bool x0 x then y0
      else ((y1 - y0) / (x1 - x0)) * (x - x0) + y0
  | _ :: _, y0 :: _ => y0
  | _, _ => 0
  end%Q.

Definition interp1 (x : Q) (xp fp : list Q) : Q :=
  match xp, fp with
  | x0 :: _, y0 :: _ =>
      if Qle_bool x0 x then interp_from x xp fp else y0
  | _, _ => 0%Q
  end.

(** [np.interp(xs, xp, fp)]: numpy checks once that there are sample
    points and that [xp] and [fp] have the same length. *)
Definition np_interp (xs xp fp : list Q) : result (list Q) :=
  if (length xp =? 0)%nat then Raise (ValueError "array of sample points is empty")
  else if negb (length xp =? length fp)%nat then Raise (ValueError "fp and xp are not of the same length.")
  else Ok ((fun x => interp1 x xp fp) <$> xs).

End Py.

Export Py.

Local Open Scope stdpp_scope.

(** ** spectra_library.py *)

Module Spectra.

(** The attributes of an [AbsorptionSpectrum]. Wavelengths are integers,
    as in every spectrum of the library ([np.arange(450, 1001, 1)],
    [np.asarray([450, 1000])]), so that [int(np.max(wavelengths))] is the
    maximum itself. *)
Record AbsorptionSpectrum : Type := mkSpectrum {
  spectrum_name : string;
  wavelengths : list Z;
  absorption_per_centimeter : list Q;
  max_wavelength : Z;
  min_wavelength : Z;
  new_wavelengths : list Z;
  new_absorptions : list Q
}.

(** [AbsorptionSpectrum.__init__] *)
Definition AbsorptionSpectrum_init (name : string) (wl : list Z) (ab : list Q)
  : result AbsorptionSpectrum :=
  mx ← np_max wl;
  mn ← np_min wl;
  if negb (length wl =? length ab)%nat then
    Raise (ValueError "The shape of the wavelengths and the absorption coefficients did not match")
  else
    let nw := np_arange mn (mx + 1) in
    na ← np_interp (inject_Z <$> nw) (inject_Z <$> wl) ab;
    Ok (mkSpectrum name wl ab mx mn nw na).

(** [AbsorptionSpectrum.get_absorption_for_wavelength]; the two range
    checks of the source are commented out, so the lookup is a bare
    numpy index. *)
Definition get_absorption_for_wavelength (self : AbsorptionSpectrum) (wavelength : Z)
  : result Q :=
  np_getitem (new_absorptions self) (wavelength - min_wavelength self).

(** One component of the value that [__eq__] hands back: a Python bool
    or a numpy array of bools. *)
Inductive pycmp : Type :=
| PyBool (b : bool)
| PyBoolArray (a : list bool).

(** [x == y] on two numpy arrays of one dimension: elementwise on equal
    lengths, broadcast when one side has length one, and the scalar
    [False] when the shapes do not agree. *)
Definition np_equal {A} (eqb : A -> A -> bool) (x y : list A) : pycmp :=
  if (length x =? length y)%nat then PyBoolArray (zip_with eqb x y)
  else match x, y with
       | [a], _ => PyBoolArray (eqb a <$> y)
       | _, [b] => PyBoolArray ((fun a => eqb a b) <$> x)
       | _, _ => PyBool false
       end.

(** [AbsorptionSpectrum.__eq__] on another [AbsorptionSpectrum]: the
    source returns the three comparisons as a tuple, here the list of
    its items. *)
Definition AbsorptionSpectrum_eq (self other : AbsorptionSpectrum) : list pycmp :=
  [ PyBool (String.eqb (spectrum_name self) (spectrum_name other));
    np_equal Z.eqb (wavelengths self) (wavelengths other);
    np_equal Qeq_bool (absorption_per_centimeter self)
                      (absorption_per_centimeter other) ].

(** Truth value of a tuple, as [if a == b:], [bool(a == b)] and
    [not (a == b)] take it: a tuple is true exactly when it has items. *)
Definition tuple_truth {A} (items : list A) : bool :=
  negb (length items =? 0)%nat.

(** [a == b] and [a != b] in a boolean context. Python 3 derives [!=]
    from [__eq__] by negating the truth value of its result. *)
Definition spectra_equal (a b : AbsorptionSpectrum) : bool :=
  tuple_truth (AbsorptionSpectrum_eq a b).
Definition spectra_not_equal (a b : AbsorptionSpectrum) : bool :=
  negb (tuple_truth (AbsorptionSpectrum_eq a b)).

(** What the comparison is said to decide: equal names and elementwise
    equal raw arrays. *)
Definition same_name_and_raw_arrays (a b : AbsorptionSpectrum) : bool :=
  String.eqb (spectrum_name a) (spectrum_name b)
  && (length (wavelengths a) =? length (wavelengths b))%nat
  && forallb (fun p => Z.eqb p.1 p.2) (zip (wavelengths a) (wavelengths b))
  && (length (absorption_per_centimeter a) =? length (absorption_per_centimeter b))%nat
  && forallb (fun p => Qeq_bool p.1 p.2)
       (zip (absorption_per_centimeter a) (absorption_per_centimeter b)).

(** The spectra of [AbsorptionSpectrumLibrary] that are built from two
    points: the record that [AbsorptionSpectrum(name, [450, 1000], [c, c])]
    constructs (see [constant_absorber_init]). *)
Definition constant_absorber (name : string) (c : Q) : AbsorptionSpectrum :=
  let nw := np_arange 450 1001 in
  mkSpectrum name [450; 1000] [c; c] 1000 450 nw
    ((fun x => interp1 x (inject_Z <$> [450; 1000]) [c; c]) <$> (inject_Z <$> nw)).

Definition CONSTANT_ABSORBER_ZERO : AbsorptionSpectrum :=
  constant_absorber "Constant Absorber (0)" (1 # 10000000000).

Definition CONSTANT_ABSORBER_ARBITRARY (absorption_coefficient : Q) : AbsorptionSpectrum :=
  constant_absorber "Constant Absorber (1)" absorption_coefficient.

End Spectra.

Export Spectra.

(** ** molecule_library.py *)

Module Molecules.

(** *** Molecule *)

Record Molecule : Type := mkMolecule {
  spectrum : AbsorptionSpectrum;
  volume_fraction : Q;
  mus500 : Q;
  f_ray : Q;
  b_mie : Q;
  anisotropy : Q;
  gruneisen_parameter : Q;
  density : Q;
  speed_of_sound : Q;
  alpha_coefficient : Q
}.

(** A value passed for a keyword argument of [Molecule(...)]. [PyNone]
    is the default of every parameter, so it also stands for an argument
    that was not supplied. *)
Inductive pyarg : Type :=
| PyNone
| PyFloat (x : Q)
| PyInt (n : Z)
| PyBoolean (b : bool)
| PyStr (s : string)
| PySpectrum (s : AbsorptionSpectrum).

(** [v is None] *)
Definition is_None (v : pyarg) : bool :=
  match v with PyNone => true | _ => false end.

(** The block that [Molecule.__init__] repeats for every numeric field:
    [if v is None: v = default]; [if not isinstance(v, float): raise
    TypeError(...)]; [self.field = v]. Of the values of [pyarg] only a
    [PyFloat] is an instance of [float]. *)
Definition float_field (name : string) (default : Q) (v : pyarg) : result Q :=
  let v := if is_None v then PyFloat default else v in
  match v with
  | PyFloat x => Ok x
  | _ => Raise (TypeError ("The given " ++ name ++ " was not of type float!"))
  end.

(** The same block for the spectrum; only a [PySpectrum] is an instance
    of [AbsorptionSpectrum]. *)
Definition spectrum_field (v : pyarg) : result AbsorptionSpectrum :=
  let v := if is_None v then PySpectrum CONSTANT_ABSORBER_ZERO else v in
  match v with
  | PySpectrum s => Ok s
  | _ => Raise (TypeError "The given spectrum was not of type AbsorptionSpectrum!")
  end.

(** [Molecule.__init__] *)
Definition Molecule_init
    (spectrum volume_fraction mus500 f_ray b_mie anisotropy
     gruneisen_parameter density speed_of_sound alpha_coefficient : pyarg)
  : result Molecule :=
  sp ← spectrum_field spectrum;
  vf ← float_field "volume_fraction" 0 volume_fraction;
  ms ← float_field "mus500" (1 # 100000000000000000000) mus500;
  fr ← float_field "f_ray" 0 f_ray;
  bm ← float_field "b_mie" 0 b_mie;
  an ← float_field "anisotropy" 0 anisotropy;
  gr ← float_field "gruneisen_parameter" 1 gruneisen_parameter;
  de ← float_field "density" 0 density;
  so ← float_field "speed_of_sound" 0 speed_of_sound;
  al ← float_field "alpha_coefficient" 0 alpha_coefficient;
  Ok (mkMolecule sp vf ms fr bm an gr de so al).

(** What the specification calls a numeric argument: a float or an int
    (a value that is not [None], a string or another object). *)
Definition is_numeric (v : pyarg) : bool :=
  match v with PyFloat _ | PyInt _ => true | _ => false end.

(** The arguments that [__init__] lets through, and the value a field
    gets from an argument it lets through. *)
Definition unset_or_float (v : pyarg) : bool :=
  match v with PyNone | PyFloat _ => true | _ => false end.
Definition unset_or_spectrum (v : pyarg) : bool :=
  match v with PyNone | PySpectrum _ => true | _ => false end.
Definition float_or (default : Q) (v : pyarg) : Q :=
  match v with PyFloat x => x | _ => default end.
Definition spectrum_or (default : AbsorptionSpectrum) (v : pyarg) : AbsorptionSpectrum :=
  match v with PySpectrum s => s | _ => default end.

(** *** TissueProperties *)

(** The keys of a [TissueProperties] dictionary ([Tags.PROPERTY_...]). *)
Inductive Key : Type :=
| ABSORPTION_PER_CM
| SCATTERING_PER_CM
| ANISOTROPY
| GRUNEISEN_PARAMETER
| SEGMENTATION
| OXYGENATION
| DENSITY
| SPEED_OF_SOUND
| ALPHA_COEFF.

#[export] Instance Key_eq_dec : EqDecision Key.
Proof. solve_decision. Defined.

(** Modelled from the spec: [simpa/utils/tissue_properties.py] is not
    among the sources. A [TissueProperties] is the "aggregate record" of
    the specification: a dictionary with one entry per property key plus
    the attribute [volume_fraction]. The two entries that the source
    assigns from values that may be [None] (segmentation, oxygenation) are
    options; the others are numbers. *)
Record TissueProperties : Type := mkTissueProperties {
  tp_volume_fraction : Q;
  tp_absorption : Q;
  tp_scattering : Q;
  tp_anisotropy : Q;
  tp_gruneisen : Q;
  tp_segmentation : option Q;
  tp_oxygenation : option Q;
  tp_density : Q;
  tp_speed_of_sound : Q;
  tp_alpha : Q
}.

(** Modelled from the spec: [TissueProperties()] starts every aggregate
    at zero, so that the [+=] of [update_internal_properties] sums from
    zero. *)
Definition TissueProperties_new : TissueProperties :=
  mkTissueProperties 0 0 0 0 0 (Some 0%Q) (Some 0%Q) 0 0 0.

#[export] Instance TissueProperties_inhabited : Inhabited TissueProperties :=
  populate TissueProperties_new.

(** [props[key]]; [None] is Python's [None]. *)
Definition getitem (p : TissueProperties) (k : Key) : option Q :=
  match k with
  | ABSORPTION_PER_CM => Some (tp_absorption p)
  | SCATTERING_PER_CM => Some (tp_scattering p)
  | ANISOTROPY => Some (tp_anisotropy p)
  | GRUNEISEN_PARAMETER => Some (tp_gruneisen p)
  | SEGMENTATION => tp_segmentation p
  | OXYGENATION => tp_oxygenation p
  | DENSITY => Some (tp_density p)
  | SPEED_OF_SOUND => Some (tp_speed_of_sound p)
  | ALPHA_COEFF => Some (tp_alpha p)
  end.

Definition set_volume_fraction (v : Q) (p : TissueProperties) : TissueProperties :=
  mkTissueProperties v (tp_absorption p) (tp_scattering p) (tp_anisotropy p)
    (tp_gruneisen p) (tp_segmentation p) (tp_oxygenation p) (tp_density p)
    (tp_speed_of_sound p) (tp_alpha p).
Definition set_absorption (v : Q) (p : TissueProperties) : TissueProperties :=
  mkTissueProperties (tp_volume_fraction p) v (tp_scattering p) (tp_anisotropy p)
    (tp_gruneisen p) (tp_segmentation p) (tp_oxygenation p) (tp_density p)
    (tp_speed_of_sound p) (tp_alpha p).
Definition set_scattering (v : Q) (p : TissueProperties) : TissueProperties :=
  mkTissueProperties (tp_volume_fraction p) (tp_absorption p) v (tp_anisotropy p)
    (tp_gruneisen p) (tp_segmentation p) (tp_oxygenation p) (tp_density p)
    (tp_speed_of_sound p) (tp_alpha p).
Definition set_anisotropy (v : Q) (p : TissueProperties) : TissueProperties :=
  mkTissueProperties (tp_volume_fraction p) (tp_absorption p) (tp_scattering p) v
    (tp_gruneisen p) (tp_segmentation p) (tp_oxygenation p) (tp_density p)
    (tp_speed_of_sound p) (tp_alpha p).
Definition set_gruneisen (v : Q) (p : TissueProperties) : TissueProperties :=
  mkTissueProperties (tp_volume_fraction p) (tp_absorption p) (tp_scattering p)
    (tp_anisotropy p) v (tp_segmentation p) (tp_oxygenation p) (tp_density p)
    (tp_speed_of_sound p) (tp_alpha p).
Definition set_segmentation (v : option Q) (p : TissueProperties) : TissueProperties :=
  mkTissueProperties (tp_volume_fraction p) (tp_absorption p) (tp_scattering p)
    (tp_anisotropy p) (tp_gruneisen p) v (tp_oxygenation p) (tp_density p)
    (tp_speed_of_sound p) (tp_alpha p).
Definition set_oxygenation (v : option Q) (p : TissueProperties) : TissueProperties :=
  mkTissueProperties (tp_volume_fraction p) (tp_absorption p) (tp_scattering p)
    (tp_anisotropy p) (tp_gruneisen p) (tp_segmentation p) v (tp_density p)
    (tp_speed_of_sound p) (tp_alpha p).
Definition set_density (v : Q) (p : TissueProperties) : TissueProperties :=
  mkTissueProperties (tp_volume_fraction p) (tp_absorption p) (tp_scattering p)
    (tp_anisotropy p) (tp_gruneisen p) (tp_segmentation p) (tp_oxygenation p) v
    (tp_speed_of_sound p) (tp_alpha p).
Definition set_speed_of_sound (v : Q) (p : TissueProperties) : TissueProperties :=
  mkTissueProperties (tp_volume_fraction p) (tp_absorption p) (tp_scattering p)
    (tp_anisotropy p) (tp_gruneisen p) (tp_segmentation p) (tp_oxygenation p)
    (tp_density p) v (tp_alpha p).
Definition set_alpha (v : Q) (p : TissueProperties) : TissueProperties :=
  mkTissueProperties (tp_volume_fraction p) (tp_absorption p) (tp_scattering p)
    (tp_anisotropy p) (tp_gruneisen p) (tp_segmentation p) (tp_oxygenation p)
    (tp_density p) (tp_speed_of_sound p) v.

(** *** MolecularComposition *)

(** A reference to a [TissueProperties] object. *)
Definition loc : Type := nat.

Record MolecularComposition : Type := mkComposition {
  molecules : list Molecule;          (* the list that the object is *)
  segmentation_type : option Q;
  internal_properties : loc;
  cached_absorption : list Q;
  cached_scattering : list Q
}.

(** The objects a method of [MolecularComposition] can touch: the
    composition [self], the store of [TissueProperties] objects, and a
    counter of the calls made to [spectrum.get_absorption_for_wavelength]
    (instrumentation only: no code reads it). *)
Record World : Type := mkWorld {
  self : MolecularComposition;
  store : list TissueProperties;
  spectrum_lookups : nat
}.

(** A method body: it ends in a value or an exception and leaves a
    world behind in both cases. *)
Definition M (A : Type) : Type := World -> result A * World.

#[export] Instance M_ret : MRet M := fun A a w => (Ok a, w).
#[export] Instance M_bind : MBind M := fun A B k m w =>
  match m w with
  | (Ok a, w') => k a w'
  | (Raise e, w') => (Raise e, w')
  end.

Definition lift {A} (r : result A) : M A := fun w => (r, w).
Definition get_self : M MolecularComposition := fun w => (Ok (self w), w).
Definition put_self (c : MolecularComposition) : M unit :=
  fun w => (Ok tt, mkWorld c (store w) (spectrum_lookups w)).
Definition tick_lookup : M unit :=
  fun w => (Ok tt, mkWorld (self w) (store w) (S (spectrum_lookups w))).

(** Allocation of a fresh [TissueProperties] object. *)
Definition new_properties : M loc :=
  fun w => (Ok (length (store w)),
            mkWorld (self w) (store w ++ [TissueProperties_new]) (spectrum_lookups w)).

(** Read and in-place update of the object behind
    [self.internal_properties]. *)
Definition read_properties : M TissueProperties :=
  fun w => (Ok (store w !!! internal_properties (self w)), w).
Definition update_properties (f : TissueProperties -> TissueProperties) : M unit :=
  fun w => (Ok tt, mkWorld (self w)
                     (alter f (internal_properties (self w)) (store w))
                     (spectrum_lookups w)).

(** [for x in xs: body(x)] *)
Fixpoint for_each {A} (xs : list A) (body : A -> M unit) : M unit :=
  match xs with
  | [] => mret tt
  | x :: r => body x ≫= fun _ => for_each r body
  end.

(** The sums that the specification names: the total volume fraction of
    a list of molecules and the sum of [volume_fraction * f]. *)
Definition total_fraction (ms : list Molecule) : Q :=
  foldr (fun m acc => volume_fraction m + acc)%Q 0%Q ms.
Definition weighted_sum (f : Molecule -> Q) (ms : list Molecule) : Q :=
  foldr (fun m acc => volume_fraction m * f m + acc)%Q 0%Q ms.

(** What one turn of the loop of [update_internal_properties] does to
    the record, and what the whole loop does. *)
Definition accumulate (m : Molecule) (p : TissueProperties) : TissueProperties :=
  mkTissueProperties
    (tp_volume_fraction p + volume_fraction m)%Q
    (tp_absorption p) (tp_scattering p)
    (tp_anisotropy p + volume_fraction m * anisotropy m)%Q
    (tp_gruneisen p + volume_fraction m * gruneisen_parameter m)%Q
    (tp_segmentation p) (tp_oxygenation p)
    (tp_density p + volume_fraction m * density m)%Q
    (tp_speed_of_sound p + volume_fraction m * speed_of_sound m)%Q
    (tp_alpha p + volume_fraction m * alpha_coefficient m)%Q.

Definition accumulate_all (ms : list Molecule) (p : TissueProperties) : TissueProperties :=
  foldl (fun p m => accumulate m p) p ms.

(** The sentinel of the two cache arrays. *)
Definition UNSET : Q := -1.

Section Methods.

(** [x ** y] on floats. *)
Variable fpow : Q -> Q -> Q.

(** [simpa.utils.calculate.calculate_oxygenation], which is not among
    the sources; it returns a number or [None]. *)
Variable calculate_oxygenation : list Molecule -> option Q.

(** [MolecularComposition.__init__]; [molecular_composition_settings]
    is an optional dictionary whose values are appended in key order. *)
Definition MolecularComposition_init (segmentation_type : option Q)
    (molecular_composition_settings : option (list (string * Molecule)))
    (objects : list TissueProperties) : World :=
  mkWorld
    (mkComposition
       (match molecular_composition_settings with
        | None => []
        | Some d => snd <$> d
        end)
       segmentation_type
       (length objects)
       (replicate 5000 (1 * UNSET)%Q)
       (replicate 5000 (1 * UNSET)%Q))
    (objects ++ [TissueProperties_new])
    0.

(** [MolecularComposition.update_internal_properties] *)
Definition update_internal_properties : M unit :=
  l ← new_properties;
  c ← get_self;
  put_self (mkComposition (molecules c) (segmentation_type c) l
              (cached_absorption c) (cached_scattering c));;
  update_properties (set_segmentation (segmentation_type c));;
  update_properties (set_oxygenation (calculate_oxygenation (molecules c)));;
  for_each (molecules c) (fun molecule =>
    update_properties (fun p =>
      set_volume_fraction (tp_volume_fraction p + volume_fraction molecule) p);;
    update_properties (fun p =>
      set_anisotropy (tp_anisotropy p + volume_fraction molecule * anisotropy molecule) p);;
    update_properties (fun p =>
      set_gruneisen (tp_gruneisen p + volume_fraction molecule * gruneisen_parameter molecule) p);;
    update_properties (fun p =>
      set_density (tp_density p + volume_fraction molecule * density molecule) p);;
    update_properties (fun p =>
      set_speed_of_sound (tp_speed_of_sound p + volume_fraction molecule * speed_of_sound molecule) p);;
    update_properties (fun p =>
      set_alpha (tp_alpha p + volume_fraction molecule * alpha_coefficient molecule) p));;
  p ← read_properties;
  if float_lt 1 (tp_volume_fraction p) then
    update_properties (fun p => set_anisotropy (tp_anisotropy p / tp_volume_fraction p) p)
  else mret tt.

(** The scattering term of one molecule at [wavelength]. *)
Definition scattering_term (molecule : Molecule) (wavelength : Z) : Q :=
  volume_fraction molecule *
  (mus500 molecule *
     (f_ray molecule * fpow (inject_Z wavelength / 500) (1 # 10000)
      + (1 - f_ray molecule) * fpow (inject_Z wavelength / 500) (- b_mie molecule))).

(** [MolecularComposition.get_properties_for_wavelength]; the value
    returned is the reference held in [self.internal_properties]. *)
Definition get_properties_for_wavelength (wavelength : Z) : M loc :=
  c ← get_self;
  a ← lift (np_getitem (cached_absorption c) wavelength);
  (if negb (Qeq_bool a UNSET) then
     s ← lift (np_getitem (cached_scattering c) wavelength);
     update_properties (set_absorption a);;
     update_properties (set_scattering s)
   else
     update_properties (set_absorption 0);;
     update_properties (set_scattering 0);;
     for_each (molecules c) (fun molecule =>
       tick_lookup;;
       v ← lift (get_absorption_for_wavelength (spectrum molecule) wavelength);
       update_properties (fun p =>
         set_absorption (tp_absorption p + volume_fraction molecule * v) p);;
       update_properties (fun p =>
         set_scattering (tp_scattering p + scattering_term molecule wavelength) p));;
     p ← read_properties;
     ca ← lift (np_setitem (cached_absorption c) wavelength (tp_absorption p));
     put_self (mkComposition (molecules c) (segmentation_type c)
                 (internal_properties c) ca (cached_scattering c));;
     p ← read_properties;
     cs ← lift (np_setitem (cached_scattering c) wavelength (tp_scattering p));
     put_self (mkComposition (molecules c) (segmentation_type c)
                 (internal_properties c) ca cs));;
  c ← get_self;
  mret (internal_properties c).

End Methods.

(** The relation that the loop of [get_properties_for_wavelength]
    preserves: [self] is untouched and no object is added or removed. *)
Definition same_objects (W W' : World) : Prop :=
  self W' = self W /\ length (store W') = length (store W).

(** *** Objects used in examples *)

(** A stand-in for [x ** y] where an example needs one. *)
Definition unit_pow (x y : Q) : Q := 1.

(** [AbsorptionSpectrum("ramp", [900, 1000], [1.0, 2.0])] *)
Definition ramp_spectrum : AbsorptionSpectrum :=
  mkSpectrum "ramp" [900; 1000] [1; 2]%Q 1000 900 (np_arange 900 1001)
    ((fun x => interp1 x [inject_Z 900; inject_Z 1000] [1; 2]%Q)
       <$> (inject_Z <$> np_arange 900 1001)).

(** [Molecule(spectrum=sp, volume_fraction=vf)] *)
Definition plain_molecule (sp : AbsorptionSpectrum) (vf : Q) : Molecule :=
  mkMolecule sp vf (1 # 100000000000000000000) 0 0 0 1 0 0 0.

(** A composition of one molecule, in a store of its own. *)
Definition single_molecule_world (m : Molecule) : World :=
  MolecularComposition_init None (Some [("m"%string, m)]) [].

End Molecules.

Export Molecules.

(** ** volume_creation_module_model_based_adapter.py *)

Module Compositor.

(** *** Dense arrays

    A torch tensor of shape [(nx, ny, nz)] is the list of its [nx*ny*nz]
    entries in row-major order: voxel [(x, y, z)] is entry
    [(x*ny + y)*nz + z]. A boolean tensor is a list of booleans. All the
    operations the compositor uses are elementwise; assignment through a
    boolean mask, [a[m] = b[m]], keeps [a] where [m] is false and takes
    [b] where it is true. *)
Abbreviation tensor := (list Q).
Abbreviation bool_tensor := (list bool).

#[export] Instance Q_inhabited : Inhabited Q := populate 0%Q.

Definition zeros (n : nat) : tensor := replicate n 0%Q.

Definition gt_scalar (t : tensor) (c : Q) : bool_tensor := (fun x => float_lt c x) <$> t.
Definition lt_scalar (t : tensor) (c : Q) : bool_tensor := (fun x => float_lt x c) <$> t.
Definition le_tensor (a b : tensor) : bool_tensor := zip_with Qle_bool a b.
Definition gt_tensor (a b : tensor) : bool_tensor := zip_with (fun x y => float_lt y x) a b.
Definition mask_and (a b : bool_tensor) : bool_tensor := zip_with andb a b.
Definition add (a b : tensor) : tensor := zip_with Qplus a b.
Definition mul_scalar (a : tensor) (c : Q) : tensor := (fun x => x * c)%Q <$> a.
Definition rsub_scalar (c : Q) (a : tensor) : tensor := (fun x => c - x)%Q <$> a.
Definition minimum (a b : tensor) : tensor :=
  zip_with (fun x y => if Qle_bool x y then x else y) a b.

(** [c & m] for a Python int [c] and a boolean tensor [m]: the integer
    tensor of the bitwise conjunctions. *)
Definition int_and (c : Z) (m : bool_tensor) : tensor :=
  (fun b : bool => inject_Z (Z.land c (Z.b2z b))) <$> m.

(** [a[m] = b[m]] and [a[m] = c] *)
Definition masked_assign (a : tensor) (m : bool_tensor) (b : tensor) : tensor :=
  zip_with (fun (am : Q * bool) (y : Q) => if am.2 then y else am.1) (zip a m) b.
Definition masked_fill (a : tensor) (m : bool_tensor) (c : Q) : tensor :=
  zip_with (fun (x : Q) (b : bool) => if b then c else x) a m.

(** [torch.any] *)
Definition any (m : bool_tensor) : bool := existsb id m.

(** [t[:, j, :]] for a tensor of shape [(nx, ny, nz)]; an index outside
    [-ny .. ny-1] raises [IndexError]. *)
Definition slice_y (nx ny nz : nat) (t : tensor) (j : Z) : result (list (list Q)) :=
  k ← np_index ny j;
  Ok ((fun x : nat => (fun z : nat => t !!! ((x * ny + k) * nz + z)%nat) <$> seq 0 nz)
        <$> seq 0 nx).

(** [a[:, :, n] = plane] for an array [a] of shape [(nx, nz, len)], held
    as the list of its [len] planes, and a counter [n] that is never
    negative; an index past the last plane raises [IndexError]. *)
Definition set_plane (a : list (list (list Q))) (n : nat) (plane : list (list Q))
  : result (list (list (list Q))) :=
  if (n <? length a)%nat then Ok (<[n := plane]> a) else Raise IndexError.

(** *** Settings and structures *)

(** What the pass reads of the settings: the grid dimensions that
    [create_empty_volumes] returns, the two settings from which line 105
    computes the index of the audit plane ([SPACING_MM] is positive), and
    the wavelength. *)
Record Settings : Type := mkSettings {
  x_dim_px : nat;
  y_dim_px : nat;
  z_dim_px : nat;
  DIM_VOLUME_Y_MM : Q;
  SPACING_MM : Q;
  WAVELENGTH : Z
}.

(** An entry of [structure.params]: a string, a sequence (of which only
    the string items can match a string), or a value on which [in]
    raises [TypeError]. *)
Inductive param : Type :=
| ParamStr (s : string)
| ParamSeq (items : list string)
| ParamScalar.

(** What the compositor reads of a structure yielded by
    [priority_sorted_structures] (the structure classes are not among the
    sources): the record returned by [structure.properties_for_wavelength],
    [structure.params], and [structure.geometrical_volume], the entries of
    an array of the shape of the grid in row-major order. *)
Record Structure : Type := mkStructure {
  properties_for_wavelength : Z -> TissueProperties;
  params : list param;
  geometrical_volume : tensor
}.

(** [needle in hay] on two strings. *)
Fixpoint contains (needle hay : string) : bool :=
  String.prefix needle hay
  || match hay with
     | EmptyString => false
     | String _ rest => contains needle rest
     end.

(** [needle in p]; [None] when Python raises. *)
Definition param_contains (needle : string) (p : param) : option bool :=
  match p with
  | ParamStr s => Some (contains needle s)
  | ParamSeq items => Some (existsb (String.eqb needle) items)
  | ParamScalar => None
  end.

(** The variables that the loop of [create_simulation_volume] updates. *)
Record State : Type := mkState {
  volumes : list (Key * tensor);
  global_volume_fractions : tensor;
  max_added_fractions : tensor;
  structures_filling : list (list (list Q));
  n : nat
}.

(** Modelled from the spec: [create_empty_volumes] belongs to the base
    class [VolumeCreatorModuleBase], which is not among the sources. It
    returns one zero array per field of the "TissuePropertyVolume" of the
    specification. *)
Definition volume_keys : list Key :=
  [ABSORPTION_PER_CM; SCATTERING_PER_CM; ANISOTROPY; GRUNEISEN_PARAMETER;
   DENSITY; SPEED_OF_SOUND; ALPHA_COEFF; SEGMENTATION].

Definition create_empty_volumes (settings : Settings) : list (Key * tensor) :=
  (fun k => (k, zeros (x_dim_px settings * y_dim_px settings * z_dim_px settings)))
    <$> volume_keys.

(** [volumes[key]] *)
Fixpoint get_volume (key : Key) (vols : list (Key * tensor)) : option tensor :=
  match vols with
  | [] => None
  | (k, t) :: rest => if decide (k = key) then Some t else get_volume key rest
  end.

(** *** The pass at one voxel

    The entries that lines 90 to 103 and line 119 compute at a voxel
    where the global array holds [g] and the structure's array holds
    [s] (see [added_volume_fraction_lookup] and
    [global_update_lookup]). *)
Definition eligible_at (g s : Q) : bool := float_lt 0 s && float_lt g 1.

Definition added_at (g s : Q) : Q :=
  let naive := (g + s)%Q in
  let a := if Qle_bool naive (inject_Z (Z.land 1 (Z.b2z (eligible_at g s))))
           then s else naive in
  if float_lt 1 a then (if Qle_bool (1 - g) s then 1 - g else s)%Q else a.

Definition global_at (g s : Q) : Q :=
  if eligible_at g s then (g + added_at g s)%Q else g.

Definition in_unit_interval (x : Q) : Prop := (0 <= x /\ x <= 1)%Q.

Section Pass.

(** [SegmentationClasses.ARTERY] and the like; the class is not among
    the sources. *)
Variables ARTERY VEIN RANDOM_ARTERY RANDOM_VEIN : Q.

Variable settings : Settings.

Definition grid_size : nat :=
  (x_dim_px settings * y_dim_px settings * z_dim_px settings)%nat.

(** What the geometry collaborator owes the compositor: an occupancy
    array of the shape of the grid with values in [0, 1]. *)
Definition well_shaped (structure : Structure) : Prop :=
  length (geometrical_volume structure) = grid_size
  /\ Forall in_unit_interval (geometrical_volume structure).

(** Lines 76 to 86: the [try] block around [structure.params[5]]. Any
    exception (no sixth parameter, a parameter without [in]) leaves
    the properties as they are. *)
Definition vessel_override (structure : Structure) (props : TissueProperties)
  : TissueProperties :=
  match params structure !! 5%nat with
  | None => props
  | Some p =>
      match param_contains "artery" p, param_contains "random" p,
            param_contains "vein" p, param_contains "random_artery" p,
            param_contains "random_vein" p with
      | Some artery, Some random, Some vein, Some random_artery, Some random_vein =>
          if artery && negb random then set_segmentation (Some ARTERY) props
          else if vein && negb random then set_segmentation (Some VEIN) props
          else if random_artery then set_segmentation (Some RANDOM_ARTERY) props
          else if random_vein then set_segmentation (Some RANDOM_VEIN) props
          else props
      | _, _, _, _, _ => props
      end
  end.

(** Lines 90 to 92: [mask], from [global_volume_fractions] and
    [structure_volume_fractions]. *)
Definition eligible_mask (g s : tensor) : bool_tensor :=
  let structure_indexes_mask := gt_scalar s 0 in
  let global_volume_fractions_mask := lt_scalar g 1 in
  mask_and structure_indexes_mask global_volume_fractions_mask.

(** Lines 93 to 103: the array [added_volume_fraction] once both masked
    assignments are done. In [added <= 1 & mask] the operator [&] binds
    tighter than [<=]: the selector is [added <= (1 & mask)]. *)
Definition added_volume_fraction (g s : tensor) : tensor :=
  let mask := eligible_mask g s in
  let added := add g s in
  let added := masked_assign added (le_tensor added (int_and 1 mask)) s in
  let selector_more_than_1 := gt_scalar added 1 in
  if any selector_more_than_1 then
    masked_assign added selector_more_than_1 (minimum (rsub_scalar 1 g) s)
  else added.

(** Lines 108 to 117: one turn of [for key in volumes.keys()]. The turn
    for the segmentation key also updates [max_added_fractions]. *)
Definition update_volume (props : TissueProperties) (added : tensor) (m : bool_tensor)
    (acc : list (Key * tensor) * tensor) (entry : Key * tensor)
  : list (Key * tensor) * tensor :=
  let '(done, max_added) := acc in
  let '(key, volume) := entry in
  match getitem props key with
  | None => (done ++ [(key, volume)], max_added)
  | Some value =>
      match key with
      | SEGMENTATION =>
          let greater := mask_and (gt_tensor added max_added) m in
          (done ++ [(key, masked_fill volume greater value)],
           masked_assign max_added greater added)
      | _ =>
          (done ++ [(key, masked_assign volume m (add volume (mul_scalar added value)))],
           max_added)
      end
  end.

(** Lines 72 to 119: the body of the loop over the structures. *)
Definition process_structure (st : State) (structure : Structure) : result State :=
  let structure_properties :=
    vessel_override structure (properties_for_wavelength structure (WAVELENGTH settings)) in
  let structure_volume_fractions := geometrical_volume structure in
  let g := global_volume_fractions st in
  if negb (length structure_volume_fractions =? grid_size)%nat then
    (* line 93 adds two arrays of different sizes *)
    Raise (RuntimeError "The size of tensor a must match the size of tensor b")
  else
    let mask := eligible_mask g structure_volume_fractions in
    let added := added_volume_fraction g structure_volume_fractions in
    (* line 105 *)
    plane ← slice_y (x_dim_px settings) (y_dim_px settings) (z_dim_px settings) added
              (py_int ((DIM_VOLUME_Y_MM settings / 2) / SPACING_MM settings));
    filling ← set_plane (structures_filling st) (n st) plane;
    (* lines 108 to 117 *)
    let '(vols, max_added) :=
      foldl (update_volume structure_properties added mask)
            ([], max_added_fractions st) (volumes st) in
    (* line 119 *)
    Ok (mkState vols
          (masked_assign g mask (add g added))
          max_added
          filling
          (S (n st))).

Definition initial_state (n_structures : nat) : State :=
  mkState (create_empty_volumes settings)
    (zeros grid_size) (zeros grid_size)
    (replicate n_structures
       (replicate (x_dim_px settings) (replicate (z_dim_px settings) 0%Q)))
    0.

(** [for structure in ...:] from a given state. *)
Fixpoint process_structures (st : State) (structures : list Structure) : result State :=
  match structures with
  | [] => Ok st
  | structure :: rest =>
      st' ← process_structure st structure;
      process_structures st' rest
  end.

(** [create_simulation_volume], from line 62 on, on the sequence that
    [priority_sorted_structures] yields. The state after the loop holds
    the returned [volumes], the saved [structures_filling] and the two
    local arrays. *)
Definition create_simulation_volume (structures : list Structure) : result State :=
  process_structures (initial_state (length structures)) structures.

(** The state of that pass after its first [k] structures. *)
Definition state_after (k : nat) (structures : list Structure) : result State :=
  process_structures (initial_state (length structures)) (take k structures).

End Pass.

(** *** Objects used in examples *)

(** A grid of one column of two voxels; the audit plane is
    [int((1.0 / 2) / 1.0) = 0]. *)
Definition column_settings : Settings := mkSettings 1 1 2 1 1 800.

Definition labelled (label : Q) : TissueProperties :=
  set_segmentation (Some label) TissueProperties_new.

(** Structure A covers 0.6 of the upper voxel and all of the lower one;
    structure B covers 0.6 of the upper voxel and half of the lower one;
    the third structure covers nothing. *)
Definition structure_A : Structure :=
  mkStructure (fun _ => labelled 2) [] [6 # 10; 1]%Q.
Definition structure_B : Structure :=
  mkStructure (fun _ => labelled 3) [] [6 # 10; 1 # 2]%Q.
Definition absent_structure : Structure :=
  mkStructure (fun _ => labelled 3) [] [0; 0]%Q.

End Compositor.

Export Compositor.

(** ** spectra_library.py: predicates on the arguments of a spectrum *)

(** Each wavelength is smaller than the next one. *)
Fixpoint strictly_ascending (l : list Z) : Prop :=
  match l with
  | x :: ((y :: _) as rest) => x < y /\ strictly_ascending rest
  | _ => True
  end.

(** [lo <= y <= hi] on rationals. *)
Definition between (lo hi y : Q) : Prop := (lo <= y /\ y <= hi)%Q.

(** ** spectra_library.py: the library of spectra *)

Module SpectraLibrary.

(** An [AbsorptionSpectrumLibrary] object: the list [self.spectra] and the
    counter [self.i] that its iterator methods move. The spectra that
    [__init__] puts into the list are class attributes; here they are the
    argument of [__init__]. *)
Record AbsorptionSpectrumLibrary : Type := mkLibrary {
  spectra : list AbsorptionSpectrum;
  i : nat
}.

(** [AbsorptionSpectrumLibrary.__init__] *)
Definition AbsorptionSpectrumLibrary_init (class_spectra : list AbsorptionSpectrum)
  : AbsorptionSpectrumLibrary :=
  mkLibrary class_spectra (length class_spectra).

(** The exceptions of the iterator methods. *)
Inductive lib_exn : Type :=
| StopIteration
| LookupError (msg : string)
| ListIndexError.

(** [AbsorptionSpectrumLibrary.__next__]: the value returned or the
    exception raised, and the object afterwards. *)
Definition library_next (self : AbsorptionSpectrumLibrary)
  : (AbsorptionSpectrum + lib_exn) * AbsorptionSpectrumLibrary :=
  if (0 <? i self)%nat then
    let self := mkLibrary (spectra self) (i self - 1) in
    match spectra self !! i self with
    | Some spectrum => (inl spectrum, self)
    | None => (inr ListIndexError, self)
    end
  else (inr StopIteration, self).

(** [AbsorptionSpectrumLibrary.__iter__] returns [self]: a [for] loop over
    the library calls [__next__] on the library itself until it raises
    [StopIteration]. The loops below take the number of calls they may
    make and return [None] when that number does not suffice. *)

(** The comprehension [[spectrum.spectrum_name for spectrum in self]]. *)
Fixpoint names_loop (calls : nat) (self : AbsorptionSpectrumLibrary) (names : list string)
  : option ((list string + lib_exn) * AbsorptionSpectrumLibrary) :=
  match calls with
  | O => None
  | S calls =>
      match library_next self with
      | (inl spectrum, self) => names_loop calls self (names ++ [spectrum_name spectrum])
      | (inr StopIteration, self) => Some (inl names, self)
      | (inr e, self) => Some (inr e, self)
      end
  end.

(** [AbsorptionSpectrumLibrary.get_spectra_names]; the loop calls
    [__next__] at most [self.i + 1] times. *)
Definition get_spectra_names (self : AbsorptionSpectrumLibrary)
  : option ((list string + lib_exn) * AbsorptionSpectrumLibrary) :=
  names_loop (S (i self)) self [].

(** The loop of [get_spectrum_by_name], with its [return] from inside the
    loop and the [raise] after it. *)
Fixpoint lookup_loop (calls : nat) (self : AbsorptionSpectrumLibrary) (name : string)
  : option ((AbsorptionSpectrum + lib_exn) * AbsorptionSpectrumLibrary) :=
  match calls with
  | O => None
  | S calls =>
      match library_next self with
      | (inl spectrum, self) =>
          if String.eqb (spectrum_name spectrum) name then Some (inl spectrum, self)
          else lookup_loop calls self name
      | (inr StopIteration, self) =>
          Some (inr (LookupError "No spectrum for the given name exists"), self)
      | (inr e, self) => Some (inr e, self)
      end
  end.

(** [AbsorptionSpectrumLibrary.get_spectrum_by_name] *)
Definition get_spectrum_by_name (self : AbsorptionSpectrumLibrary) (name : string)
  : option ((AbsorptionSpectrum + lib_exn) * AbsorptionSpectrumLibrary) :=
  lookup_loop (S (i self)) self name.

(** The names of the spectra in a list. *)
Definition names_of (l : list AbsorptionSpectrum) : list string :=
  spectrum_name <$> l.

(** A library of three of the spectra of the source, for examples. *)
Definition three_absorbers : list AbsorptionSpectrum :=
  [ CONSTANT_ABSORBER_ZERO;
    constant_absorber "Constant Absorber (1)" 1;
    constant_absorber "Constant Absorber (10)" 10 ].

End SpectraLibrary.

Export SpectraLibrary.

(** ** molecule_library.py: further methods and the sums they compute *)

Module MoleculesMore.

(** [self.append(molecule)], the method a [MolecularComposition] inherits
    from [list]. *)
Definition append (molecule : Molecule) : M unit :=
  c ← get_self;
  put_self (mkComposition (molecules c ++ [molecule]) (segmentation_type c)
              (internal_properties c) (cached_absorption c) (cached_scattering c)).




(** Two records agree in everything but absorption and scattering. *)
Definition same_mechanical (p p' : TissueProperties) : Prop :=
  tp_volume_fraction p' = tp_volume_fraction p
  /\ tp_anisotropy p' = tp_anisotropy p
  /\ tp_gruneisen p' = tp_gruneisen p
  /\ tp_segmentation p' = tp_segmentation p
  /\ tp_oxygenation p' = tp_oxygenation p
  /\ tp_density p' = tp_density p
  /\ tp_speed_of_sound p' = tp_speed_of_sound p
  /\ tp_alpha p' = tp_alpha p.

(** What [get_properties_for_wavelength] leaves alone: the reference,
    the molecules and the segmentation type of [self], every other object
    of the store, and the mechanical entries of the record. *)
Definition same_but_optical (W W' : World) : Prop :=
  internal_properties (self W') = internal_properties (self W)
  /\ molecules (self W') = molecules (self W)
  /\ segmentation_type (self W') = segmentation_type (self W)
  /\ length (store W') = length (store W)
  /\ (forall l : loc, l <> internal_properties (self W) -> store W' !! l = store W !! l)
  /\ same_mechanical (store W !!! internal_properties (self W))
       (store W' !!! internal_properties (self W)).

(** The record that [update_internal_properties] builds from the
    molecules: the sums, then the division of the anisotropy. *)
Definition renormalise (p : TissueProperties) : TissueProperties :=
  if float_lt 1 (tp_volume_fraction p)
  then set_anisotropy (tp_anisotropy p / tp_volume_fraction p)%Q p
  else p.
Definition aggregate (calculate_oxygenation : list Molecule -> option Q)
    (c : MolecularComposition) : TissueProperties :=
  renormalise
    (accumulate_all (molecules c)
       (set_oxygenation (calculate_oxygenation (molecules c))
          (set_segmentation (segmentation_type c) TissueProperties_new))).

(** *** MoleculeLibrary *)

(** [MoleculeLibrary.water(volume_fraction)]; the spectrum
    [SPECTRAL_LIBRARY.WATER] is an argument. A call without argument
    passes [1.0]. *)
Definition water (WATER : AbsorptionSpectrum) (volume_fraction : pyarg) : result Molecule :=
  Molecule_init (PySpectrum WATER) volume_fraction
    (PyFloat 0) (PyFloat 0) (PyFloat 0) (PyFloat 1) PyNone PyNone PyNone PyNone.

(** [MoleculeLibrary.constant_scatterer(scattering_coefficient, anisotropy,
    volume_fraction)]; a call without arguments passes [100.0], [0.9] and
    [1.0]. *)
Definition constant_scatterer (scattering_coefficient anisotropy volume_fraction : pyarg)
  : result Molecule :=
  Molecule_init (PySpectrum CONSTANT_ABSORBER_ZERO) volume_fraction
    scattering_coefficient (PyFloat 0) (PyFloat 0) anisotropy PyNone PyNone PyNone PyNone.

End MoleculesMore.

Export MoleculesMore.

(** ** volume_creation_module_model_based_adapter.py: what the pass
    leaves at one voxel *)

Module CompositorMore.

(** The sum of the occupancies that a sequence of structures has at
    voxel [i]. *)
Definition occupancy_sum (i : nat) (structures : list Structure) : Q :=
  foldr (fun structure acc => (geometrical_volume structure !!! i) + acc)%Q 0%Q structures.

(** Two entries of [volumes] have the same key and the same value at
    voxel [i]. *)
Definition same_at (i : nat) (e e' : Key * tensor) : Prop :=
  e'.1 = e.1 /\ e'.2 !! i = e.2 !! i.

(** The entry [e'] is the entry [e] after
    [volumes[key][mask] += added[mask] * props[key]] at a voxel [i] of
    the mask where [added] holds [a]; an entry whose property is [None]
    is skipped, and nothing is said of the segmentation entry. *)
Definition gains_at (props : TissueProperties) (a : Q) (i : nat)
    (e e' : Key * tensor) : Prop :=
  e'.1 = e.1
  /\ match e.1 with
     | SEGMENTATION => True
     | key =>
         match getitem props key with
         | None => e'.2 = e.2
         | Some value =>
             forall x : Q, e.2 !! i = Some x -> e'.2 !! i = Some (x + a * value)%Q
         end
     end.

(** The plane [added[:, j, :]] that line 105 copies. *)
Definition audit_plane (settings : Settings) (added : tensor) (j : nat) : list (list Q) :=
  (fun x : nat =>
     (fun z : nat => added !!! ((x * y_dim_px settings + j) * z_dim_px settings + z)%nat)
       <$> seq 0 (z_dim_px settings))
    <$> seq 0 (x_dim_px settings).

(** A structure whose sixth parameter is the string [tag]. *)
Definition tagged_structure (tag : string) : Structure :=
  mkStructure (fun _ => labelled 0)
    [ParamScalar; ParamScalar; ParamScalar; ParamScalar; ParamScalar; ParamStr tag]
    [1; 1]%Q.

End CompositorMore.

Export CompositorMore.

(** * Properties *)

(** ** numpy indexing *)

Section NumpyFacts.

Context {A : Type}.
Implicit Types (a : list A) (i : Z).

Lemma np_index_nonneg (n : nat) i :
  0 <= i < Z.of_nat n -> np_index n i = Ok (Z.to_nat i).
Proof.
  intros H. unfold np_index.
  destruct (Z.leb_spec 0 i), (Z.ltb_spec i (Z.of_nat n)); simpl; try lia. reflexivity.
Qed.

Lemma np_index_negative (n : nat) i :
  - Z.of_nat n <= i < 0 -> np_index n i = Ok (Z.to_nat (i + Z.of_nat n)).
Proof.
  intros H. unfold np_index.
  destruct (Z.leb_spec 0 i); simpl; [lia|].
  destruct (Z.leb_spec (- Z.of_nat n) i), (Z.ltb_spec i 0); simpl; try lia. reflexivity.
Qed.

Lemma np_index_outside (n : nat) i :
  i < - Z.of_nat n \/ Z.of_nat n <= i -> np_index n i = Raise IndexError.
Proof.
  intros H. unfold np_index.
  destruct (Z.leb_spec 0 i), (Z.ltb_spec i (Z.of_nat n)); simpl; try lia;
    destruct (Z.leb_spec (- Z.of_nat n) i), (Z.ltb_spec i 0); simpl; try lia; reflexivity.
Qed.

Lemma np_index_Ok (n : nat) i k :
  np_index n i = Ok k -> (k < n)%nat.
Proof.
  unfold np_index.
  destruct (Z.leb_spec 0 i), (Z.ltb_spec i (Z.of_nat n)); simpl;
    try (intros [= <-]; lia);
    destruct (Z.leb_spec (- Z.of_nat n) i), (Z.ltb_spec i 0); simpl;
    try discriminate; intros [= <-]; lia.
Qed.

Lemma np_getitem_nonneg a i x :
  0 <= i -> a !! Z.to_nat i = Some x -> np_getitem a i = Ok x.
Proof.
  intros Hi Hx. unfold np_getitem.
  rewrite np_index_nonneg; [simpl; by rewrite Hx|].
  apply lookup_lt_Some in Hx. lia.
Qed.

Lemma np_getitem_negative a i x :
  - Z.of_nat (length a) <= i < 0 ->
  a !! Z.to_nat (i + Z.of_nat (length a)) = Some x -> np_getitem a i = Ok x.
Proof.
  intros Hi Hx. unfold np_getitem.
  rewrite np_index_negative by done. simpl. by rewrite Hx.
Qed.

Lemma np_getitem_outside a i :
  i < - Z.of_nat (length a) \/ Z.of_nat (length a) <= i ->
  np_getitem a i = Raise IndexError.
Proof. intros H. unfold np_getitem. by rewrite np_index_outside. Qed.

Lemma np_getitem_Ok a i x :
  np_getitem a i = Ok x ->
  exists k, np_index (length a) i = Ok k /\ a !! k = Some x.
Proof.
  unfold np_getitem. destruct (np_index (length a) i) as [k|e] eqn:E; simpl; [|done].
  destruct (a !! k) eqn:E'; [|done]. intros [= <-]. eauto.
Qed.

(** Reading back the slot that was just written. *)
Lemma np_getitem_setitem a a' i x :
  np_setitem a i x = Ok a' -> np_getitem a' i = Ok x.
Proof.
  unfold np_setitem, np_getitem.
  destruct (np_index (length a) i) as [k|e] eqn:E; simpl; [|done].
  intros [= <-]. rewrite length_insert, E. simpl.
  rewrite list_lookup_insert_eq; [done|]. by eapply np_index_Ok.
Qed.

(** A slot that can be read can be written. *)
Lemma np_setitem_of_getitem a i x y :
  np_getitem a i = Ok x -> exists a', np_setitem a i y = Ok a'.
Proof.
  intros (k & E & _)%np_getitem_Ok. unfold np_setitem. rewrite E. simpl. eauto.
Qed.

End NumpyFacts.

Lemma np_arange_length lo hi : length (np_arange lo hi) = Z.to_nat (hi - lo).
Proof. unfold np_arange. by rewrite length_fmap, length_seq. Qed.

Lemma np_arange_lookup lo hi (k : nat) :
  Z.of_nat k < hi - lo -> np_arange lo hi !! k = Some (lo + Z.of_nat k).
Proof.
  intros H. unfold np_arange. rewrite list_lookup_fmap, lookup_seq_lt by lia. done.
Qed.

Lemma np_min_le_max (a : list Z) mn mx :
  np_min a = Ok mn -> np_max a = Ok mx -> mn <= mx.
Proof.
  destruct a as [|x r]; simpl; [done|]. intros [= <-] [= <-].
  assert (foldr Z.min x r <= x) by (clear; induction r; simpl; lia).
  assert (x <= foldr Z.max x r) by (clear; induction r; simpl; lia). lia.
Qed.

(** ** Spectra *)

Section SpectraFacts.

Local Open Scope Q_scope.

(** Interpolating between two samples of the same height gives that
    height, wherever the sample lies. *)
Lemma interp1_two_points_constant (x lo hi c : Q) :
  interp1 x [lo; hi] [c; c] == c.
Proof.
  unfold interp1. destruct (Qle_bool lo x); [|reflexivity]. simpl.
  destruct (Qle_bool hi x); [reflexivity|].
  destruct (Qeq_bool lo x); [reflexivity|]. unfold Qdiv. ring.
Qed.

Lemma constant_absorber_init (name : string) (c : Q) :
  AbsorptionSpectrum_init name [450; 1000]%Z [c; c] = Ok (constant_absorber name c).
Proof. reflexivity. Qed.

(** What [__init__] establishes: the table has one entry per integer
    wavelength of [min_wavelength .. max_wavelength]. *)
Lemma init_table (name : string) (wl : list Z) (ab : list Q) (s : AbsorptionSpectrum) :
  AbsorptionSpectrum_init name wl ab = Ok s ->
  (min_wavelength s <= max_wavelength s)%Z
  /\ new_wavelengths s = np_arange (min_wavelength s) (max_wavelength s + 1)
  /\ length (new_absorptions s) = Z.to_nat (max_wavelength s - min_wavelength s + 1).
Proof.
  unfold AbsorptionSpectrum_init.
  destruct (np_max wl) as [mx|] eqn:Emx; simpl; [|done].
  destruct (np_min wl) as [mn|] eqn:Emn; simpl; [|done].
  destruct (negb _); [done|].
  destruct (np_interp _ _ _) as [na|] eqn:Ena; simpl; [|done].
  intros [= <-]. simpl.
  split; [by eapply np_min_le_max|]. split; [done|].
  unfold np_interp in Ena.
  destruct (_ =? 0)%nat; [done|]. destruct (negb _); [done|].
  injection Ena as <-. rewrite !length_fmap, np_arange_length. f_equal. lia.
Qed.

End SpectraFacts.

Section SpectraClaims.

Local Open Scope Q_scope.

(** C6. A spectrum built from the two points [([450, 1000], [c, c])] is
    constructed without error, and for every integer wavelength [w] of
    [450 .. 1000] the lookup returns a value equal to [c]. *)
Theorem constant_spectrum_lookup (name : string) (c : Q) (w : Z) :
  (450 <= w <= 1000)%Z ->
  exists s v,
    AbsorptionSpectrum_init name [450; 1000]%Z [c; c] = Ok s
    /\ get_absorption_for_wavelength s w = Ok v
    /\ v == c.
Proof.
  intros Hw. rewrite constant_absorber_init.
  exists (constant_absorber name c), (interp1 (inject_Z w) [inject_Z 450; inject_Z 1000] [c; c]).
  split; [done|]. split; [|apply interp1_two_points_constant].
  unfold get_absorption_for_wavelength. apply np_getitem_nonneg.
  - change (min_wavelength (constant_absorber name c)) with 450%Z. lia.
  - change (min_wavelength (constant_absorber name c)) with 450%Z.
    unfold constant_absorber, new_absorptions.
    rewrite !list_lookup_fmap, np_arange_lookup by lia.
    replace (450 + Z.of_nat (Z.to_nat (w - 450)))%Z with w by lia. reflexivity.
Qed.

Lemma constant_spectrum_lookup_witness :
  (450 <= 700 <= 1000)%Z
  /\ exists s v,
       AbsorptionSpectrum_init "Constant Absorber (10)" [450; 1000]%Z [10; 10] = Ok s
       /\ get_absorption_for_wavelength s 700 = Ok v
       /\ v == 10.
Proof.
  split; [lia|]. apply (constant_spectrum_lookup "Constant Absorber (10)" 10 700). lia.
Defined.

(** Every pair of spectra compares equal in a boolean context, and no
    pair compares unequal: the tuple that [__eq__] returns has three
    items. *)
Lemma spectra_equal_always (a b : AbsorptionSpectrum) :
  spectra_equal a b = true /\ spectra_not_equal a b = false.
Proof. split; reflexivity. Qed.

(** C7 (the source departs from it). The library spectra "Constant
    Absorber (1)" and "Constant Absorber (10)" differ in name and in
    their raw absorption arrays, and [==] on them is true and [!=] is
    false. *)
Theorem eq_of_different_spectra_is_true :
  let a := constant_absorber "Constant Absorber (1)" 1 in
  let b := constant_absorber "Constant Absorber (10)" 10 in
  same_name_and_raw_arrays a b = false
  /\ AbsorptionSpectrum_eq a b
     = [PyBool false; PyBoolArray [true; true]; PyBoolArray [false; false]]
  /\ spectra_equal a b = true
  /\ spectra_not_equal a b = false.
Proof. repeat split; reflexivity. Qed.

(** C9, amended. For a spectrum that [__init__] built, with table length
    [L = max_wavelength - min_wavelength + 1]: a wavelength [w] with
    [min_wavelength - L <= w < min_wavelength] is looked up without error
    and yields the table entry of wavelength [w + L]; the lookup raises
    [IndexError] exactly when [w > max_wavelength] or
    [w < min_wavelength - L]. *)
Theorem negative_index_wraps (name : string) (wl : list Z) (ab : list Q)
    (s : AbsorptionSpectrum) (w : Z) :
  AbsorptionSpectrum_init name wl ab = Ok s ->
  let L := (max_wavelength s - min_wavelength s + 1)%Z in
  ((min_wavelength s - L <= w < min_wavelength s)%Z ->
     exists (k : nat) (v : Q),
       new_wavelengths s !! k = Some (w + L)%Z
       /\ new_absorptions s !! k = Some v
       /\ get_absorption_for_wavelength s w = Ok v
       /\ get_absorption_for_wavelength s (w + L) = Ok v)
  /\ (get_absorption_for_wavelength s w = Raise IndexError
      <-> (max_wavelength s < w \/ w < min_wavelength s - L)%Z).
Proof.
  intros (Hle & Hnw & Hlen)%init_table L. subst L.
  set (mn := min_wavelength s) in *. set (mx := max_wavelength s) in *.
  unfold get_absorption_for_wavelength. fold mn.
  split.
  - intros Hw.
    destruct (lookup_lt_is_Some_2 (new_absorptions s) (Z.to_nat (w + (mx - mn + 1) - mn)))
      as [v Hv]; [lia|].
    exists (Z.to_nat (w + (mx - mn + 1) - mn)), v. repeat split.
    + rewrite Hnw, np_arange_lookup by lia. f_equal. lia.
    + done.
    + apply np_getitem_negative; [lia|]. rewrite <- Hv. f_equal. lia.
    + apply np_getitem_nonneg; [lia|done].
  - split.
    + intros Hraise.
      destruct (Z_lt_le_dec mx w) as [|Hmx]; [by left|].
      destruct (Z_lt_le_dec w (mn - (mx - mn + 1))) as [|Hmn]; [by right|].
      exfalso. destruct (Z_lt_le_dec w mn).
      * destruct (lookup_lt_is_Some_2 (new_absorptions s)
                    (Z.to_nat (w - mn + Z.of_nat (length (new_absorptions s)))))
          as [v Hv]; [lia|].
        rewrite (np_getitem_negative _ _ v) in Hraise; [done|lia|done].
      * destruct (lookup_lt_is_Some_2 (new_absorptions s) (Z.to_nat (w - mn)))
          as [v Hv]; [lia|].
        rewrite (np_getitem_nonneg _ _ v) in Hraise; [done|lia|done].
    + intros H. apply np_getitem_outside. lia.
Qed.

Lemma negative_index_wraps_witness :
  let s := mkSpectrum "ramp" [900; 1000]%Z [1; 2] 1000 900 (np_arange 900 1001)
             ((fun x => interp1 x [inject_Z 900; inject_Z 1000] [1; 2])
                <$> (inject_Z <$> np_arange 900 1001)) in
  AbsorptionSpectrum_init "ramp" [900; 1000]%Z [1; 2] = Ok s
  /\ ((799 <= 899 < 900)%Z ->
        exists (k : nat) (v : Q),
          new_wavelengths s !! k = Some 1000%Z
          /\ new_absorptions s !! k = Some v
          /\ get_absorption_for_wavelength s 899 = Ok v
          /\ get_absorption_for_wavelength s 1000 = Ok v)
  /\ (get_absorption_for_wavelength s 899 = Raise IndexError
      <-> (1000 < 899 \/ 899 < 799)%Z).
Proof.
  intros s. split; [reflexivity|].
  apply (negative_index_wraps "ramp" [900; 1000]%Z [1; 2] s 899). reflexivity.
Defined.

(** C9, as stated, fails: a wavelength below [min_wavelength - L] raises
    [IndexError] although it does not exceed [max_wavelength]. *)
Lemma lookup_far_below_minimum_raises :
  exists s,
    AbsorptionSpectrum_init "ramp" [900; 1000]%Z [1; 2] = Ok s
    /\ (700 <= max_wavelength s)%Z
    /\ get_absorption_for_wavelength s 700 = Raise IndexError.
Proof. eexists. split; [reflexivity|]. split; [simpl; lia|reflexivity]. Qed.

End SpectraClaims.

(** ** Molecules *)

Section MoleculeClaims.

Lemma float_field_spec (name : string) (default : Q) (v : pyarg) :
  float_field name default v
  = if unset_or_float v then Ok (float_or default v)
    else Raise (TypeError ("The given " ++ name ++ " was not of type float!")).
Proof. by destruct v. Qed.

Lemma spectrum_field_spec (v : pyarg) :
  spectrum_field v
  = if unset_or_spectrum v then Ok (spectrum_or CONSTANT_ABSORBER_ZERO v)
    else Raise (TypeError "The given spectrum was not of type AbsorptionSpectrum!").
Proof. by destruct v. Qed.

(** C8, amended. [Molecule(...)] returns a molecule exactly when the
    spectrum argument is unset or an [AbsorptionSpectrum] and each of the
    nine other arguments is unset or a float; the molecule then holds the
    supplied values and, for the unset fields, the defaults of the
    source. In every other case, a string, an int or a bool among them,
    the call raises [TypeError] and produces no molecule. *)
Theorem molecule_init_accepts_floats_only
    (sp vf ms fr bm an gr de so al : pyarg) :
  if unset_or_spectrum sp && unset_or_float vf && unset_or_float ms
     && unset_or_float fr && unset_or_float bm && unset_or_float an
     && unset_or_float gr && unset_or_float de && unset_or_float so
     && unset_or_float al
  then Molecule_init sp vf ms fr bm an gr de so al
       = Ok (mkMolecule (spectrum_or CONSTANT_ABSORBER_ZERO sp)
               (float_or 0 vf) (float_or (1 # 100000000000000000000) ms)
               (float_or 0 fr) (float_or 0 bm) (float_or 0 an) (float_or 1 gr)
               (float_or 0 de) (float_or 0 so) (float_or 0 al))
  else exists msg, Molecule_init sp vf ms fr bm an gr de so al = Raise (TypeError msg).
Proof.
  unfold Molecule_init. rewrite spectrum_field_spec, !float_field_spec.
  destruct (unset_or_spectrum sp); simpl; [|eauto].
  destruct (unset_or_float vf); simpl; [|eauto].
  destruct (unset_or_float ms); simpl; [|eauto].
  destruct (unset_or_float fr); simpl; [|eauto].
  destruct (unset_or_float bm); simpl; [|eauto].
  destruct (unset_or_float an); simpl; [|eauto].
  destruct (unset_or_float gr); simpl; [|eauto].
  destruct (unset_or_float de); simpl; [|eauto].
  destruct (unset_or_float so); simpl; [|eauto].
  destruct (unset_or_float al); simpl; [|eauto].
  reflexivity.
Qed.

(** C8, as stated, fails: the int [1] is numeric and
    [Molecule(volume_fraction=1)] raises [TypeError]. *)
Lemma molecule_init_rejects_int :
  is_numeric (PyInt 1) = true
  /\ Molecule_init PyNone (PyInt 1) PyNone PyNone PyNone PyNone PyNone PyNone PyNone PyNone
     = Raise (TypeError "The given volume_fraction was not of type float!").
Proof. split; reflexivity. Qed.

End MoleculeClaims.

(** ** Molecular compositions *)

(** Unfolds one layer of the method monad. *)
Ltac m_unfold :=
  unfold mbind, M_bind, mret, M_ret, new_properties, get_self, put_self,
    update_properties, read_properties, tick_lookup, lift.

Section CompositionFacts.

Local Open Scope Q_scope.

Lemma list_alter_same {A} (f : A -> A) (l : list A) (i : nat) :
  (forall x, l !! i = Some x -> f x = x) -> alter f i l = l.
Proof.
  intros H. apply list_eq. intros j. destruct (decide (i = j)) as [->|].
  - rewrite list_lookup_alter_eq. destruct (l !! j) as [x|] eqn:E; simpl; [|done].
    f_equal. by apply H.
  - by rewrite list_lookup_alter_ne.
Qed.

Lemma for_each_accumulate (ms : list Molecule) (W : World) :
  for_each ms (fun molecule =>
      update_properties (fun p =>
        set_volume_fraction (tp_volume_fraction p + volume_fraction molecule) p);;
      update_properties (fun p =>
        set_anisotropy (tp_anisotropy p + volume_fraction molecule * anisotropy molecule) p);;
      update_properties (fun p =>
        set_gruneisen (tp_gruneisen p + volume_fraction molecule * gruneisen_parameter molecule) p);;
      update_properties (fun p =>
        set_density (tp_density p + volume_fraction molecule * density molecule) p);;
      update_properties (fun p =>
        set_speed_of_sound (tp_speed_of_sound p + volume_fraction molecule * speed_of_sound molecule) p);;
      update_properties (fun p =>
        set_alpha (tp_alpha p + volume_fraction molecule * alpha_coefficient molecule) p)) W
  = (Ok tt, mkWorld (self W)
              (alter (accumulate_all ms) (internal_properties (self W)) (store W))
              (spectrum_lookups W)).
Proof.
  revert W. induction ms as [|m ms IH]; intros W.
  - simpl. m_unfold. rewrite list_alter_id by done. by destruct W.
  - cbn [for_each]. unfold mbind at 1, M_bind at 1.
    m_unfold. cbn [self store spectrum_lookups].
    rewrite IH. cbn [self store spectrum_lookups].
    rewrite !list_alter_alter_eq. do 2 f_equal.
Qed.

Lemma accumulate_all_fields (ms : list Molecule) (p : TissueProperties) :
  tp_volume_fraction (accumulate_all ms p) == tp_volume_fraction p + total_fraction ms
  /\ tp_anisotropy (accumulate_all ms p) == tp_anisotropy p + weighted_sum anisotropy ms
  /\ tp_gruneisen (accumulate_all ms p) == tp_gruneisen p + weighted_sum gruneisen_parameter ms
  /\ tp_density (accumulate_all ms p) == tp_density p + weighted_sum density ms
  /\ tp_speed_of_sound (accumulate_all ms p) == tp_speed_of_sound p + weighted_sum speed_of_sound ms
  /\ tp_alpha (accumulate_all ms p) == tp_alpha p + weighted_sum alpha_coefficient ms.
Proof.
  revert p. induction ms as [|m ms IH]; intros p.
  - simpl. repeat split; ring.
  - cbn [accumulate_all foldl]. fold (accumulate_all ms (accumulate m p)).
    destruct (IH (accumulate m p)) as (H1 & H2 & H3 & H4 & H5 & H6).
    rewrite H1, H2, H3, H4, H5, H6. simpl. repeat split; ring.
Qed.

Lemma float_lt_proper (x x' y y' : Q) :
  x == x' -> y == y' -> float_lt x y = float_lt x' y'.
Proof. intros Hx Hy. unfold float_lt. by rewrite Hx, Hy. Qed.

Lemma float_lt_true (x y : Q) : float_lt x y = true <-> x < y.
Proof.
  unfold float_lt. rewrite negb_true_iff, <- not_true_iff_false, Qle_bool_iff.
  split; [apply Qnot_le_lt | apply Qlt_not_le].
Qed.

Lemma float_lt_false (x y : Q) : float_lt x y = false <-> y <= x.
Proof. unfold float_lt. rewrite negb_false_iff. apply Qle_bool_iff. Qed.

(** C4. [update_internal_properties] returns without error and leaves
    in the record behind [self.internal_properties]: the sum of the
    volume fractions as [volume_fraction]; for the Grüneisen parameter,
    the density, the speed of sound and the alpha coefficient the plain
    sum of [volume_fraction * property] over the molecules, whatever the
    total fraction is; and for the anisotropy that sum, divided by the
    total fraction exactly when the total fraction exceeds 1. *)
Theorem update_internal_properties_sums
    (calculate_oxygenation : list Molecule -> option Q) (W : World) :
  exists W',
    update_internal_properties calculate_oxygenation W = (Ok tt, W')
    /\ molecules (self W') = molecules (self W)
    /\ let ms := molecules (self W) in
       let p := store W' !!! internal_properties (self W') in
       tp_volume_fraction p == total_fraction ms
       /\ tp_gruneisen p == weighted_sum gruneisen_parameter ms
       /\ tp_density p == weighted_sum density ms
       /\ tp_speed_of_sound p == weighted_sum speed_of_sound ms
       /\ tp_alpha p == weighted_sum alpha_coefficient ms
       /\ tp_anisotropy p
          == (if float_lt 1 (total_fraction ms)
              then weighted_sum anisotropy ms / total_fraction ms
              else weighted_sum anisotropy ms).
Proof.
  unfold update_internal_properties.
  m_unfold. cbn [self store spectrum_lookups molecules internal_properties].
  rewrite for_each_accumulate.
  cbn [self store spectrum_lookups molecules internal_properties].
  rewrite !list_alter_alter_eq.
  set (ms := molecules (self W)).
  set (F := accumulate_all ms ∘ _ ∘ _).
  assert (Hlen : (length (store W) < length (store W ++ [TissueProperties_new]))%nat)
    by (rewrite length_app; simpl; lia).
  assert (Hnew : (store W ++ [TissueProperties_new]) !!! length (store W)
                 = TissueProperties_new)
    by (by apply list_lookup_total_middle).
  rewrite list_lookup_total_alter_eq, Hnew by done.
  destruct (accumulate_all_fields ms
              (set_oxygenation (calculate_oxygenation ms)
                 (set_segmentation (segmentation_type (self W)) TissueProperties_new)))
    as (Hvf & Han & Hgr & Hde & Hso & Hal).
  cbn [set_oxygenation set_segmentation tp_volume_fraction tp_anisotropy tp_gruneisen
       tp_density tp_speed_of_sound tp_alpha TissueProperties_new] in Hvf, Han, Hgr, Hde, Hso, Hal.
  rewrite Qplus_0_l in Hvf, Han, Hgr, Hde, Hso, Hal.
  change (accumulate_all ms _) with (F TissueProperties_new) in Hvf, Han, Hgr, Hde, Hso, Hal.
  rewrite (float_lt_proper 1 1 _ (total_fraction ms)) by (done || reflexivity).
  destruct (float_lt 1 (total_fraction ms)) eqn:Hgt.
  - eexists. split; [reflexivity|]. split; [reflexivity|].
    cbn [self store internal_properties].
    rewrite list_alter_alter_eq, list_lookup_total_alter_eq, Hnew by done.
    cbn [compose set_anisotropy tp_volume_fraction tp_anisotropy tp_gruneisen
         tp_density tp_speed_of_sound tp_alpha].
    rewrite Hvf, Han. by repeat split.
  - eexists. split; [reflexivity|]. split; [reflexivity|].
    cbn [self store internal_properties].
    rewrite list_lookup_total_alter_eq, Hnew by done.
    by repeat split.
Qed.

End CompositionFacts.

Section CacheFacts.

Local Open Scope Q_scope.

Variable fpow : Q -> Q -> Q.

(** A loop preserves every reflexive and transitive relation between
    worlds that its body preserves, whether it ends normally or not. *)
Lemma for_each_preserves {A} (R : World -> World -> Prop) (xs : list A)
    (body : A -> M unit) :
  (forall W, R W W) ->
  (forall W1 W2 W3, R W1 W2 -> R W2 W3 -> R W1 W3) ->
  (forall x W r W', body x W = (r, W') -> R W W') ->
  forall W r W', for_each xs body W = (r, W') -> R W W'.
Proof.
  intros Hrefl Htrans Hbody. induction xs as [|x xs IH]; intros W r W'.
  - simpl. m_unfold. intros [= _ <-]. apply Hrefl.
  - cbn [for_each]. unfold mbind, M_bind.
    destruct (body x W) as [[[]|e] Wx] eqn:Ex.
    + intros Hrest. eapply Htrans; [by eapply Hbody|by eapply IH].
    + intros [= _ <-]. by eapply Hbody.
Qed.

Lemma lookup_loop_same_objects (w : Z) (ms : list Molecule) (W : World) r W' :
  for_each ms (fun molecule =>
      tick_lookup;;
      v ← lift (get_absorption_for_wavelength (spectrum molecule) w);
      update_properties (fun p =>
        set_absorption (tp_absorption p + volume_fraction molecule * v) p);;
      update_properties (fun p =>
        set_scattering (tp_scattering p + scattering_term fpow molecule w) p)) W
  = (r, W') ->
  same_objects W W'.
Proof.
  apply for_each_preserves.
  - by intros ?.
  - intros ??? [??] [??]. split; congruence.
  - intros m W0 r0 W0'. m_unfold. cbn [self store spectrum_lookups].
    destruct (get_absorption_for_wavelength (spectrum m) w).
    + intros [= _ <-]. split; [done|]. cbn [store]. by rewrite !length_alter.
    + intros [= _ <-]. by split.
Qed.

(** What a call that returns has established. *)
Lemma get_properties_returns (w : Z) (W : World) (r : loc) (W1 : World) :
  get_properties_for_wavelength fpow w W = (Ok r, W1) ->
  r = internal_properties (self W)
  /\ internal_properties (self W1) = internal_properties (self W)
  /\ molecules (self W1) = molecules (self W)
  /\ length (store W1) = length (store W)
  /\ ((internal_properties (self W) < length (store W))%nat ->
      np_getitem (cached_absorption (self W1)) w = Ok (tp_absorption (store W1 !!! r))
      /\ np_getitem (cached_scattering (self W1)) w = Ok (tp_scattering (store W1 !!! r))).
Proof.
  unfold get_properties_for_wavelength. m_unfold.
  destruct (np_getitem (cached_absorption (self W)) w) as [a|] eqn:Ea; [|done].
  destruct (negb (Qeq_bool a UNSET)) eqn:Eset.
  - destruct (np_getitem (cached_scattering (self W)) w) as [s|] eqn:Es; [|done].
    cbn [self store spectrum_lookups]. intros [= <- <-]. cbn [self store].
    repeat split; rewrite ?length_alter; try done.
    all: rewrite !list_lookup_total_alter_eq by (by rewrite ?length_alter); done.
  - cbn [self store spectrum_lookups].
    destruct (for_each _ _ _) as [[[]|e] W'] eqn:Eloop; [|done].
    apply lookup_loop_same_objects in Eloop as [Hself Hlen].
    cbn [self store] in Hself, Hlen. rewrite !length_alter in Hlen.
    destruct (np_setitem (cached_absorption (self W)) w _) as [ca|] eqn:Eca; [|done].
    cbn [self store spectrum_lookups internal_properties].
    destruct (np_setitem (cached_scattering (self W)) w _) as [cs|] eqn:Ecs; [|done].
    cbn [self store spectrum_lookups internal_properties].
    intros [= <- <-]. cbn [self store internal_properties molecules
                            cached_absorption cached_scattering].
    rewrite Hself in Eca.
    repeat split; try done.
    + by eapply np_getitem_setitem.
    + by eapply np_getitem_setitem.
Qed.

(** A call that finds its slot set, and the record already holding the
    two cached numbers, changes nothing at all. *)
Lemma get_properties_cached_noop (w : Z) (W : World) :
  let p := store W !!! internal_properties (self W) in
  np_getitem (cached_absorption (self W)) w = Ok (tp_absorption p) ->
  np_getitem (cached_scattering (self W)) w = Ok (tp_scattering p) ->
  ~ tp_absorption p == UNSET ->
  get_properties_for_wavelength fpow w W = (Ok (internal_properties (self W)), W).
Proof.
  intros p Ha Hs Hset. unfold get_properties_for_wavelength. m_unfold.
  rewrite Ha.
  assert (Qeq_bool (tp_absorption p) UNSET = false) as ->
    by (destruct (Qeq_bool _ _) eqn:E; [by apply Qeq_bool_eq in E|done]).
  cbn [negb].
  rewrite Hs. cbn [self store spectrum_lookups].
  rewrite list_alter_alter_eq, list_alter_same; [by destruct W|].
  intros x Hx. apply list_lookup_total_correct in Hx. subst p x.
  by destruct (_ !!! _).
Qed.

(** C5, amended. When a call for wavelength [w] returns and the
    absorption it leaves in the record is not the sentinel [-1], both
    cache slots of [w] hold the two numbers of the record, and a second
    call for [w] returns the same reference and leaves the world as it
    is: the record, the caches and the count of spectrum lookups are
    unchanged, so nothing was recomputed. *)
Theorem second_call_reads_cache (w : Z) (W : World) (r : loc) (W1 : World) :
  (internal_properties (self W) < length (store W))%nat ->
  get_properties_for_wavelength fpow w W = (Ok r, W1) ->
  ~ tp_absorption (store W1 !!! r) == UNSET ->
  np_getitem (cached_absorption (self W1)) w = Ok (tp_absorption (store W1 !!! r))
  /\ np_getitem (cached_scattering (self W1)) w = Ok (tp_scattering (store W1 !!! r))
  /\ get_properties_for_wavelength fpow w W1 = (Ok r, W1).
Proof.
  intros Hwf Hcall Hset.
  destruct (get_properties_returns w W r W1 Hcall) as (-> & Hip & _ & _ & Hcache).
  destruct (Hcache Hwf) as [Ha Hs]. rewrite <- Hip in *.
  repeat split; [done|done|]. by apply get_properties_cached_noop.
Qed.

(** C10. Two calls that return hand back the same reference. After the
    first call the record behind it holds the cached numbers of [w1];
    after the second call the record behind that same reference holds
    the cached numbers of [w2]. *)
Theorem returned_record_is_shared (w1 w2 : Z) (W : World)
    (r1 : loc) (W1 : World) (r2 : loc) (W2 : World) :
  (internal_properties (self W) < length (store W))%nat ->
  get_properties_for_wavelength fpow w1 W = (Ok r1, W1) ->
  get_properties_for_wavelength fpow w2 W1 = (Ok r2, W2) ->
  r2 = r1
  /\ r1 = internal_properties (self W2)
  /\ np_getitem (cached_absorption (self W1)) w1 = Ok (tp_absorption (store W1 !!! r1))
  /\ np_getitem (cached_scattering (self W1)) w1 = Ok (tp_scattering (store W1 !!! r1))
  /\ np_getitem (cached_absorption (self W2)) w2 = Ok (tp_absorption (store W2 !!! r1))
  /\ np_getitem (cached_scattering (self W2)) w2 = Ok (tp_scattering (store W2 !!! r1)).
Proof.
  intros Hwf Hcall1 Hcall2.
  destruct (get_properties_returns w1 W r1 W1 Hcall1) as (-> & Hip1 & _ & Hlen1 & Hcache1).
  destruct (get_properties_returns w2 W1 r2 W2 Hcall2) as (-> & Hip2 & _ & _ & Hcache2).
  destruct (Hcache1 Hwf) as [Ha1 Hs1].
  destruct Hcache2 as [Ha2 Hs2]; [by rewrite Hip1, Hlen1|].
  rewrite Hip1 in *. repeat split; try done; congruence.
Qed.

End CacheFacts.

Section CacheExamples.

Local Open Scope Q_scope.

Lemma second_call_reads_cache_witness :
  let W := single_molecule_world (plain_molecule ramp_spectrum (1 # 2)) in
  let W1 := (get_properties_for_wavelength unit_pow 900 W).2 in
  ((internal_properties (self W) < length (store W))%nat
   /\ get_properties_for_wavelength unit_pow 900 W = (Ok 0%nat, W1)
   /\ ~ tp_absorption (store W1 !!! 0%nat) == UNSET)
  /\ (np_getitem (cached_absorption (self W1)) 900 = Ok (tp_absorption (store W1 !!! 0%nat))
      /\ np_getitem (cached_scattering (self W1)) 900 = Ok (tp_scattering (store W1 !!! 0%nat))
      /\ get_properties_for_wavelength unit_pow 900 W1 = (Ok 0%nat, W1)).
Proof.
  intros W W1.
  assert (H1 : (internal_properties (self W) < length (store W))%nat)
    by (vm_compute; lia).
  assert (H2 : get_properties_for_wavelength unit_pow 900 W = (Ok 0%nat, W1))
    by (vm_compute; reflexivity).
  assert (H3 : ~ tp_absorption (store W1 !!! 0%nat) == UNSET)
    by (vm_compute; discriminate).
  split; [by repeat split|].
  exact (second_call_reads_cache unit_pow 900 W 0%nat W1 H1 H2 H3).
Defined.

(** C5, as stated, fails, in two ways. A molecule of volume fraction 1
    whose spectrum is constantly -1 has absorption -1, the sentinel: the
    first call leaves the slot looking unset, and the second call looks
    the spectrum up again. And the wavelength 2000 is an index of the
    cache but not of the table of a spectrum on 450 .. 1000: both calls
    raise [IndexError] and return nothing. *)
Lemma second_call_recomputes_or_fails :
  (let W := single_molecule_world
              (plain_molecule (CONSTANT_ABSORBER_ARBITRARY (-1)) 1) in
   let call1 := get_properties_for_wavelength unit_pow 800 W in
   let call2 := get_properties_for_wavelength unit_pow 800 call1.2 in
   call1.1 = Ok 0%nat
   /\ call2.1 = Ok 0%nat
   /\ spectrum_lookups W = 0%nat
   /\ spectrum_lookups call1.2 = 1%nat
   /\ spectrum_lookups call2.2 = 2%nat)
  /\ (let W := single_molecule_world (plain_molecule CONSTANT_ABSORBER_ZERO (1 # 2)) in
      let call1 := get_properties_for_wavelength unit_pow 2000 W in
      let call2 := get_properties_for_wavelength unit_pow 2000 call1.2 in
      (0 <= 2000 < Z.of_nat (length (cached_absorption (self W))))%Z
      /\ call1.1 = Raise IndexError
      /\ call2.1 = Raise IndexError).
Proof. vm_compute. by repeat split. Qed.

Lemma returned_record_is_shared_witness :
  let W := single_molecule_world (plain_molecule ramp_spectrum (1 # 2)) in
  let W1 := (get_properties_for_wavelength unit_pow 900 W).2 in
  let W2 := (get_properties_for_wavelength unit_pow 1000 W1).2 in
  ((internal_properties (self W) < length (store W))%nat
   /\ get_properties_for_wavelength unit_pow 900 W = (Ok 0%nat, W1)
   /\ get_properties_for_wavelength unit_pow 1000 W1 = (Ok 0%nat, W2))
  /\ (0%nat = 0%nat
      /\ 0%nat = internal_properties (self W2)
      /\ np_getitem (cached_absorption (self W1)) 900 = Ok (tp_absorption (store W1 !!! 0%nat))
      /\ np_getitem (cached_scattering (self W1)) 900 = Ok (tp_scattering (store W1 !!! 0%nat))
      /\ np_getitem (cached_absorption (self W2)) 1000 = Ok (tp_absorption (store W2 !!! 0%nat))
      /\ np_getitem (cached_scattering (self W2)) 1000 = Ok (tp_scattering (store W2 !!! 0%nat))).
Proof.
  intros W W1 W2.
  assert (H1 : (internal_properties (self W) < length (store W))%nat)
    by (vm_compute; lia).
  assert (H2 : get_properties_for_wavelength unit_pow 900 W = (Ok 0%nat, W1))
    by (vm_compute; reflexivity).
  assert (H3 : get_properties_for_wavelength unit_pow 1000 W1 = (Ok 0%nat, W2))
    by (vm_compute; reflexivity).
  split; [by repeat split|].
  exact (returned_record_is_shared unit_pow 900 1000 W 0%nat W1 0%nat W2 H1 H2 H3).
Defined.

(** In that example the two wavelengths have different absorptions, and
    the record reached through the reference of the first call shows
    the first one before the second call and the second one after it. *)
Lemma shared_record_changes_under_the_first_reference :
  let W := single_molecule_world (plain_molecule ramp_spectrum (1 # 2)) in
  let call1 := get_properties_for_wavelength unit_pow 900 W in
  let call2 := get_properties_for_wavelength unit_pow 1000 call1.2 in
  call1.1 = Ok 0%nat
  /\ tp_absorption (store call1.2 !!! 0%nat) == 1 # 2
  /\ tp_absorption (store call2.2 !!! 0%nat) == 1.
Proof. vm_compute. by repeat split. Qed.

End CacheExamples.


(** ** The compositor *)

Section TensorFacts.

Local Open Scope Q_scope.

Lemma any_false_lookup (m : list bool) (i : nat) (b : bool) :
  any m = false -> m !! i = Some b -> b = false.
Proof.
  unfold any. revert i. induction m as [|x m IH]; intros [|i]; simpl; try done.
  - intros H [= <-]. by destruct x.
  - intros H Hi. destruct x; [done|]. by eapply IH.
Qed.

Lemma masked_assign_lookup (a : list Q) (m : list bool) (b : list Q) (i : nat) (x : Q) (c : bool) (y : Q) :
  a !! i = Some x -> m !! i = Some c -> b !! i = Some y ->
  masked_assign a m b !! i = Some (if c then y else x).
Proof.
  intros Ha Hm Hb. unfold masked_assign.
  by rewrite !lookup_zip_with, Ha, Hm, Hb.
Qed.

Lemma masked_assign_length (a : list Q) (m : list bool) (b : list Q) :
  length m = length a -> length b = length a -> length (masked_assign a m b) = length a.
Proof.
  intros Hm Hb. unfold masked_assign. rewrite !length_zip_with. lia.
Qed.

Lemma masked_fill_lookup (a : list Q) (m : list bool) (v : Q) (i : nat) (x : Q) (c : bool) :
  a !! i = Some x -> m !! i = Some c ->
  masked_fill a m v !! i = Some (if c then v else x).
Proof. intros Ha Hm. unfold masked_fill. by rewrite lookup_zip_with, Ha, Hm. Qed.

Lemma eligible_mask_lookup (g s : list Q) (i : nat) (gi si : Q) :
  g !! i = Some gi -> s !! i = Some si ->
  eligible_mask g s !! i = Some (eligible_at gi si).
Proof.
  intros Hg Hs. unfold eligible_mask, mask_and, gt_scalar, lt_scalar. cbv zeta.
  by rewrite lookup_zip_with, !list_lookup_fmap, Hg, Hs.
Qed.

Lemma eligible_mask_length (g s : list Q) :
  length s = length g -> length (eligible_mask g s) = length g.
Proof.
  intros H. unfold eligible_mask, mask_and, gt_scalar, lt_scalar. cbv zeta.
  rewrite length_zip_with, !length_fmap. lia.
Qed.

(** Lines 93 to 103 at one voxel. *)
Lemma added_volume_fraction_lookup (g s : list Q) (i : nat) (gi si : Q) :
  g !! i = Some gi -> s !! i = Some si ->
  added_volume_fraction g s !! i = Some (added_at gi si).
Proof.
  intros Hg Hs. unfold added_volume_fraction.
  set (a1 := masked_assign (add g s) (le_tensor (add g s) (int_and 1 (eligible_mask g s))) s).
  assert (Ha1 : a1 !! i = Some (if Qle_bool (gi + si)
                                      (inject_Z (Z.land 1 (Z.b2z (eligible_at gi si))))
                                then si else gi + si)).
  { unfold a1. apply masked_assign_lookup; [|  |done].
    - unfold add. by rewrite lookup_zip_with, Hg, Hs.
    - unfold le_tensor, int_and, add.
      rewrite !lookup_zip_with, list_lookup_fmap, Hg, Hs.
      by rewrite (eligible_mask_lookup g s i gi si). }
  assert (Hsel : gt_scalar a1 1 !! i
                 = Some (float_lt 1 (if Qle_bool (gi + si)
                                      (inject_Z (Z.land 1 (Z.b2z (eligible_at gi si))))
                                then si else gi + si)))
    by (unfold gt_scalar; by rewrite list_lookup_fmap, Ha1).
  unfold added_at. cbv zeta.
  destruct (any (gt_scalar a1 1)) eqn:Hany.
  - erewrite masked_assign_lookup; [done|done|done|].
    unfold minimum, rsub_scalar. by rewrite lookup_zip_with, list_lookup_fmap, Hg, Hs.
  - rewrite Ha1. by rewrite (any_false_lookup _ _ _ Hany Hsel).
Qed.

Lemma added_volume_fraction_length (g s : list Q) :
  length s = length g -> length (added_volume_fraction g s) = length g.
Proof.
  intros H. unfold added_volume_fraction.
  assert (Hl : length (masked_assign (add g s)
                         (le_tensor (add g s) (int_and 1 (eligible_mask g s))) s)
               = length g).
  { assert (length (add g s) = length g)
      by (unfold add; rewrite length_zip_with; lia).
    apply eq_trans with (length (add g s)); [|done].
    apply masked_assign_length; [|lia].
    unfold le_tensor, int_and.
    rewrite length_zip_with, length_fmap, eligible_mask_length by done. lia. }
  destruct (any _); [|done].
  rewrite masked_assign_length; [done| |].
  - unfold gt_scalar. by rewrite length_fmap.
  - unfold minimum, rsub_scalar. rewrite length_zip_with, length_fmap. lia.
Qed.

(** Line 119 at one voxel. *)
Lemma global_update_lookup (g s : list Q) (i : nat) (gi si : Q) :
  g !! i = Some gi -> s !! i = Some si ->
  masked_assign g (eligible_mask g s) (add g (added_volume_fraction g s)) !! i
  = Some (global_at gi si).
Proof.
  intros Hg Hs. unfold global_at.
  apply masked_assign_lookup; [done|by apply eligible_mask_lookup|].
  unfold add. by rewrite lookup_zip_with, Hg, (added_volume_fraction_lookup g s i gi si).
Qed.

Lemma global_update_length (g s : list Q) :
  length s = length g ->
  length (masked_assign g (eligible_mask g s) (add g (added_volume_fraction g s)))
  = length g.
Proof.
  intros H. apply masked_assign_length; [by apply eligible_mask_length|].
  unfold add. rewrite length_zip_with, added_volume_fraction_length by done. lia.
Qed.

(** *** Arithmetic at one voxel *)

Lemma eligible_at_true (g s : Q) : eligible_at g s = true <-> 0 < s /\ g < 1.
Proof. unfold eligible_at. by rewrite andb_true_iff, !float_lt_true. Qed.

Lemma eligible_at_false (g s : Q) : eligible_at g s = false <-> s <= 0 \/ 1 <= g.
Proof. unfold eligible_at. by rewrite andb_false_iff, !float_lt_false. Qed.

(** The cases of [added_at], as the specification lists them for an
    eligible voxel. *)
Lemma added_at_eligible (g s : Q) :
  eligible_at g s = true -> s <= 1 ->
  added_at g s = if Qle_bool (g + s) 1 then s
                 else if float_lt 1 (g + s)
                      then (if Qle_bool (1 - g) s then 1 - g else s)
                      else g + s.
Proof.
  intros He Hs1. unfold added_at. rewrite He.
  change (inject_Z (Z.land 1 (Z.b2z true))) with 1.
  destruct (Qle_bool (g + s) 1) eqn:Hle; [|done].
  apply eligible_at_true in He as [Hs Hg]. apply Qle_bool_iff in Hle.
  assert (float_lt 1 s = false) as -> by (apply float_lt_false; lra). done.
Qed.

(** At an eligible voxel the added fraction is the occupancy, clipped to
    the capacity that is left. *)
Lemma added_at_clipped (g s : Q) :
  in_unit_interval g -> in_unit_interval s -> eligible_at g s = true ->
  0 <= added_at g s /\ added_at g s <= s /\ added_at g s <= 1 - g.
Proof.
  unfold in_unit_interval. intros [Hg0 Hg1] [Hs0 Hs1] He.
  rewrite added_at_eligible by done.
  apply eligible_at_true in He as [Hs Hg].
  destruct (Qle_bool (g + s) 1) eqn:Hle.
  - apply Qle_bool_iff in Hle. lra.
  - apply not_true_iff_false in Hle. rewrite Qle_bool_iff in Hle.
    destruct (float_lt 1 (g + s)) eqn:Hgt.
    + destruct (Qle_bool (1 - g) s) eqn:Hmin.
      * apply Qle_bool_iff in Hmin. lra.
      * apply not_true_iff_false in Hmin. rewrite Qle_bool_iff in Hmin. lra.
    + apply float_lt_false in Hgt. lra.
Qed.

Lemma global_at_unit_interval (g s : Q) :
  in_unit_interval g -> in_unit_interval s -> in_unit_interval (global_at g s).
Proof.
  unfold in_unit_interval, global_at. intros [Hg0 Hg1] [Hs0 Hs1].
  destruct (eligible_at g s) eqn:He; [|done].
  rewrite added_at_eligible by done.
  apply eligible_at_true in He as [Hs Hg].
  destruct (Qle_bool (g + s) 1) eqn:Hle.
  - apply Qle_bool_iff in Hle. lra.
  - apply not_true_iff_false in Hle. rewrite Qle_bool_iff in Hle.
    destruct (float_lt 1 (g + s)) eqn:Hgt.
    + destruct (Qle_bool (1 - g) s) eqn:Hmin.
      * lra.
      * apply not_true_iff_false in Hmin. rewrite Qle_bool_iff in Hmin. lra.
    + apply float_lt_false in Hgt. lra.
Qed.

End TensorFacts.

Section PassFacts.

Local Open Scope Q_scope.

Variables ARTERY VEIN RANDOM_ARTERY RANDOM_VEIN : Q.
Variable settings : Settings.

Local Abbreviation process_structure :=
  (process_structure ARTERY VEIN RANDOM_ARTERY RANDOM_VEIN settings).
Local Abbreviation process_structures :=
  (process_structures ARTERY VEIN RANDOM_ARTERY RANDOM_VEIN settings).
Local Abbreviation create_simulation_volume :=
  (create_simulation_volume ARTERY VEIN RANDOM_ARTERY RANDOM_VEIN settings).
Local Abbreviation state_after :=
  (state_after ARTERY VEIN RANDOM_ARTERY RANDOM_VEIN settings).
Local Abbreviation grid_size := (grid_size settings).
Local Abbreviation y_index :=
  (py_int ((DIM_VOLUME_Y_MM settings / 2) / SPACING_MM settings)).

(** A structure of the right shape is processed without error when the
    audit plane exists, and the new global array is the one of line
    119. *)
Lemma process_structure_returns (st : State) (structure : Structure) (j : nat) :
  length (geometrical_volume structure) = grid_size ->
  np_index (y_dim_px settings) y_index = Ok j ->
  (n st < length (structures_filling st))%nat ->
  exists st',
    process_structure st structure = Ok st'
    /\ global_volume_fractions st'
       = masked_assign (global_volume_fractions st)
           (eligible_mask (global_volume_fractions st) (geometrical_volume structure))
           (add (global_volume_fractions st)
              (added_volume_fraction (global_volume_fractions st)
                 (geometrical_volume structure)))
    /\ (volumes st', max_added_fractions st')
       = foldl (update_volume
                  (vessel_override ARTERY VEIN RANDOM_ARTERY RANDOM_VEIN structure
                     (properties_for_wavelength structure (WAVELENGTH settings)))
                  (added_volume_fraction (global_volume_fractions st)
                     (geometrical_volume structure))
                  (eligible_mask (global_volume_fractions st)
                     (geometrical_volume structure)))
           ([], max_added_fractions st) (volumes st)
    /\ n st' = S (n st)
    /\ structures_filling st'
       = <[n st := (fun x : nat =>
                      (fun z : nat =>
                         added_volume_fraction (global_volume_fractions st)
                           (geometrical_volume structure)
                         !!! ((x * y_dim_px settings + j) * z_dim_px settings + z)%nat)
                      <$> seq 0 (z_dim_px settings))
                   <$> seq 0 (x_dim_px settings)]> (structures_filling st).
Proof.
  intros Hlen Hy Hn. unfold Compositor.process_structure.
  rewrite Hlen, Nat.eqb_refl. cbn [negb].
  unfold slice_y, set_plane. rewrite Hy. cbn [mbind result_bind].
  apply Nat.ltb_lt in Hn. rewrite Hn. cbn [mbind result_bind].
  destruct (foldl _ _ _) as [vols mx]. eexists. repeat split.
Qed.

Local Abbreviation well_shaped := (well_shaped settings).

Lemma process_structure_unit_interval (st : State) (structure : Structure) (j : nat) :
  np_index (y_dim_px settings) y_index = Ok j ->
  well_shaped structure ->
  (n st < length (structures_filling st))%nat ->
  length (global_volume_fractions st) = grid_size ->
  Forall in_unit_interval (global_volume_fractions st) ->
  exists st',
    process_structure st structure = Ok st'
    /\ n st' = S (n st)
    /\ length (structures_filling st') = length (structures_filling st)
    /\ length (global_volume_fractions st') = grid_size
    /\ Forall in_unit_interval (global_volume_fractions st').
Proof.
  intros Hy [Hlen Hocc] Hn Hg Hunit.
  destruct (process_structure_returns st structure j Hlen Hy Hn)
    as (st' & Hst' & Hglobal & _ & Hn' & Hfilling).
  exists st'. split; [done|]. split; [done|].
  split; [by rewrite Hfilling, length_insert|]. rewrite Hglobal.
  split; [rewrite global_update_length; congruence|].
  apply Forall_lookup. intros i x Hx.
  assert (Hi : (i < grid_size)%nat).
  { apply lookup_lt_Some in Hx. rewrite global_update_length in Hx; congruence. }
  destruct (lookup_lt_is_Some_2 (global_volume_fractions st) i) as [gi Hgi]; [lia|].
  destruct (lookup_lt_is_Some_2 (geometrical_volume structure) i) as [si Hsi]; [lia|].
  rewrite (global_update_lookup _ _ i gi si) in Hx by done. injection Hx as <-.
  apply global_at_unit_interval.
  - by apply (Forall_lookup_1 _ _ _ _ Hunit Hgi).
  - by apply (Forall_lookup_1 _ _ _ _ Hocc Hsi).
Qed.

Lemma process_structures_unit_interval (structures : list Structure) (st : State) (j : nat) :
  np_index (y_dim_px settings) y_index = Ok j ->
  Forall well_shaped structures ->
  (n st + length structures <= length (structures_filling st))%nat ->
  length (global_volume_fractions st) = grid_size ->
  Forall in_unit_interval (global_volume_fractions st) ->
  exists st',
    process_structures st structures = Ok st'
    /\ length (global_volume_fractions st') = grid_size
    /\ Forall in_unit_interval (global_volume_fractions st').
Proof.
  intros Hy. revert st.
  induction structures as [|structure rest IH]; intros st Hall Hn Hg Hunit.
  - exists st. by repeat split.
  - apply Forall_cons in Hall as [Hs Hrest]. cbn [length] in Hn.
    destruct (process_structure_unit_interval st structure j Hy Hs) as
      (st1 & Hst1 & Hn1 & Hfilling1 & Hg1 & Hunit1); [lia|done|done|].
    destruct (IH st1 Hrest) as (st' & Hst' & Hg' & Hunit'); [lia|done|done|].
    exists st'. split; [|done]. cbn [Compositor.process_structures]. by rewrite Hst1.
Qed.

Lemma initial_state_unit_interval (k : nat) :
  length (global_volume_fractions (initial_state settings k)) = grid_size
  /\ Forall in_unit_interval (global_volume_fractions (initial_state settings k)).
Proof.
  cbn [initial_state global_volume_fractions]. unfold zeros. split.
  - apply length_replicate.
  - apply Forall_replicate. unfold in_unit_interval. lra.
Qed.

(** C2. When every structure's occupancy array has the shape of the grid
    and values in [0, 1] (and the audit plane exists), the pass returns,
    and so does each of its prefixes; after the first [k] structures, for
    every [k], and after the whole pass, every entry of the global
    occupancy lies in [0, 1]. *)
Theorem global_occupancy_stays_in_unit_interval
    (structures : list Structure) (j : nat) (k : nat) :
  np_index (y_dim_px settings) y_index = Ok j ->
  Forall well_shaped structures ->
  (exists st,
      state_after k structures = Ok st
      /\ length (global_volume_fractions st) = grid_size
      /\ Forall in_unit_interval (global_volume_fractions st))
  /\ (exists st,
        create_simulation_volume structures = Ok st
        /\ length (global_volume_fractions st) = grid_size
        /\ Forall in_unit_interval (global_volume_fractions st)).
Proof.
  intros Hy Hall.
  destruct (initial_state_unit_interval (length structures)) as [H0 H1].
  assert (Hfilling : length (structures_filling (initial_state settings (length structures)))
                     = length structures)
    by apply length_replicate.
  split.
  - apply (process_structures_unit_interval _ _ j); try done.
    + by apply Forall_take.
    + rewrite Hfilling, length_take. cbn [n initial_state]. lia.
  - apply (process_structures_unit_interval _ _ j); try done.
    rewrite Hfilling. cbn [n initial_state]. lia.
Qed.

(** *** The segmentation volume *)

(** One turn of the loop over the keys, for volumes with the keys of
    [create_empty_volumes] and a structure that has a segmentation
    value: the keys stay, the segmentation volume takes the value where
    the added fraction is eligible and exceeds the largest one so far,
    and [max_added_fractions] takes the added fraction there. *)
Lemma update_volumes_segmentation (props : TissueProperties) (added : list Q)
    (m : list bool) (mx : list Q) (vols : list (Key * list Q)) (label : Q) :
  fst <$> vols = volume_keys ->
  tp_segmentation props = Some label ->
  exists vols' seg,
    foldl (update_volume props added m) ([], mx) vols
    = (vols', masked_assign mx (mask_and (gt_tensor added mx) m) added)
    /\ fst <$> vols' = volume_keys
    /\ get_volume SEGMENTATION vols = Some seg
    /\ get_volume SEGMENTATION vols'
       = Some (masked_fill seg (mask_and (gt_tensor added mx) m) label).
Proof.
  intros Hkeys Hseg. unfold volume_keys in Hkeys.
  do 8 (destruct vols as [|[? ?] vols]; [discriminate Hkeys|]).
  destruct vols; [|discriminate Hkeys].
  cbn [fmap list_fmap fst] in Hkeys. injection Hkeys as -> -> -> -> -> -> -> ->.
  cbn [foldl update_volume getitem app]. rewrite Hseg.
  eexists _, _. repeat split.
Qed.

Lemma create_empty_volumes_keys :
  fst <$> create_empty_volumes settings = volume_keys.
Proof. reflexivity. Qed.

Lemma create_empty_volumes_segmentation :
  get_volume SEGMENTATION (create_empty_volumes settings) = Some (zeros grid_size).
Proof. reflexivity. Qed.

End PassFacts.

Section OverlapScenario.

Local Open Scope Q_scope.

Variables ARTERY VEIN RANDOM_ARTERY RANDOM_VEIN : Q.
Variable settings : Settings.

Local Abbreviation process_structure :=
  (process_structure ARTERY VEIN RANDOM_ARTERY RANDOM_VEIN settings).
Local Abbreviation create_simulation_volume :=
  (create_simulation_volume ARTERY VEIN RANDOM_ARTERY RANDOM_VEIN settings).
Local Abbreviation effective_properties := (fun structure =>
  vessel_override ARTERY VEIN RANDOM_ARTERY RANDOM_VEIN structure
    (properties_for_wavelength structure (WAVELENGTH settings))).
Local Abbreviation y_index :=
  (py_int ((DIM_VOLUME_Y_MM settings / 2) / SPACING_MM settings)).

(** The numbers of the scenario at the voxel. *)
Lemma overlap_at_voxel (a b : Q) :
  a == 6 # 10 -> b == 6 # 10 ->
  eligible_at 0 a = true
  /\ added_at 0 a = a
  /\ float_lt 0 a = true
  /\ global_at 0 a == 6 # 10
  /\ eligible_at (global_at 0 a) b = true
  /\ added_at (global_at 0 a) b == 4 # 10
  /\ float_lt a (added_at (global_at 0 a) b) = false
  /\ global_at (global_at 0 a) b == 1.
Proof.
  intros Ha Hb.
  assert (He : eligible_at 0 a = true) by (apply eligible_at_true; lra).
  assert (Hadd : added_at 0 a = a).
  { rewrite added_at_eligible by (done || lra).
    assert (Qle_bool (0 + a) 1 = true) as -> by (apply Qle_bool_iff; lra). done. }
  assert (Hg : global_at 0 a == 6 # 10) by (unfold global_at; rewrite He, Hadd; lra).
  assert (He' : eligible_at (global_at 0 a) b = true) by (apply eligible_at_true; lra).
  assert (Hadd' : added_at (global_at 0 a) b = 1 - global_at 0 a).
  { rewrite added_at_eligible by (done || lra).
    assert (Qle_bool (global_at 0 a + b) 1 = false) as ->
      by (apply not_true_iff_false; rewrite Qle_bool_iff; lra).
    assert (float_lt 1 (global_at 0 a + b) = true) as -> by (apply float_lt_true; lra).
    assert (Qle_bool (1 - global_at 0 a) b = true) as -> by (apply Qle_bool_iff; lra).
    done. }
  repeat split; try done.
  - apply float_lt_true. lra.
  - rewrite Hadd'. lra.
  - apply float_lt_false. rewrite Hadd'. lra.
  - unfold global_at at 1. rewrite He', Hadd'. lra.
Qed.

(** C1. Structure A is processed before structure B; at voxel [v] both
    have occupancy 0.6, and they carry the labels [label_A] and
    [label_B]. Then the pass returns, and at [v]: the added fraction of A
    is 0.6 and the global occupancy after A is 0.6; the added fraction
    of B is 0.4 and the global occupancy after B is 1; the segmentation
    label after the pass is [label_A]. *)
Theorem overlap_keeps_label_of_larger_added_fraction
    (A B : Structure) (v j : nat) (a b label_A label_B : Q) :
  length (geometrical_volume A) = grid_size settings ->
  length (geometrical_volume B) = grid_size settings ->
  np_index (y_dim_px settings) y_index = Ok j ->
  geometrical_volume A !! v = Some a -> a == 6 # 10 ->
  geometrical_volume B !! v = Some b -> b == 6 # 10 ->
  tp_segmentation (effective_properties A) = Some label_A ->
  tp_segmentation (effective_properties B) = Some label_B ->
  exists st_A st_B added_A added_B global_A global_B segmentation,
    process_structure (initial_state settings 2) A = Ok st_A
    /\ process_structure st_A B = Ok st_B
    /\ create_simulation_volume [A; B] = Ok st_B
    /\ added_volume_fraction (global_volume_fractions (initial_state settings 2))
         (geometrical_volume A) !! v = Some added_A
    /\ added_A == 6 # 10
    /\ global_volume_fractions st_A !! v = Some global_A
    /\ global_A == 6 # 10
    /\ added_volume_fraction (global_volume_fractions st_A)
         (geometrical_volume B) !! v = Some added_B
    /\ added_B == 4 # 10
    /\ global_volume_fractions st_B !! v = Some global_B
    /\ global_B == 1
    /\ get_volume SEGMENTATION (volumes st_B) = Some segmentation
    /\ segmentation !! v = Some label_A.
Proof.
  intros HlenA HlenB Hy HA Ha HB Hb HsegA HsegB.
  destruct (overlap_at_voxel a b Ha Hb)
    as (He & Hadd & Hpos & Hg & He' & Hadd' & Hless & Hg').
  assert (Hv : (v < grid_size settings)%nat)
    by (rewrite <- HlenA; by eapply lookup_lt_Some).
  set (st0 := initial_state settings 2).
  assert (H0 : global_volume_fractions st0 !! v = Some 0)
    by (by apply lookup_replicate_2).
  assert (Hmax0 : max_added_fractions st0 !! v = Some 0)
    by (by apply lookup_replicate_2).
  (* structure A *)
  destruct (process_structure_returns ARTERY VEIN RANDOM_ARTERY RANDOM_VEIN settings
              st0 A j HlenA Hy) as (st_A & HstA & HglobalA & HvolsA & HnA & HfillingA);
    [cbn; lia|].
  destruct (update_volumes_segmentation (effective_properties A)
              (added_volume_fraction (global_volume_fractions st0) (geometrical_volume A))
              (eligible_mask (global_volume_fractions st0) (geometrical_volume A))
              (max_added_fractions st0) (volumes st0) label_A
              (create_empty_volumes_keys settings) HsegA)
    as (volsA & seg0 & HfoldA & HkeysA & Hseg0 & HsegvolA).
  rewrite HfoldA in HvolsA. injection HvolsA as HvolsA HmaxA.
  change (get_volume SEGMENTATION (volumes st0)) with (Some (zeros (grid_size settings)))
    in Hseg0. injection Hseg0 as <-.
  pose proof (added_volume_fraction_lookup _ _ v 0 a H0 HA) as HaddA.
  pose proof (eligible_mask_lookup _ _ v 0 a H0 HA) as HmA.
  pose proof (global_update_lookup _ _ v 0 a H0 HA) as HgA.
  rewrite <- HglobalA in HgA.
  assert (HgreaterA :
            mask_and (gt_tensor
                        (added_volume_fraction (global_volume_fractions st0)
                           (geometrical_volume A))
                        (max_added_fractions st0))
              (eligible_mask (global_volume_fractions st0) (geometrical_volume A)) !! v
            = Some true).
  { unfold mask_and, gt_tensor. rewrite !lookup_zip_with, HaddA, Hmax0, HmA.
    cbn [mbind option_bind]. by rewrite Hadd, Hpos, He. }
  assert (HmaxA_v : max_added_fractions st_A !! v = Some a).
  { rewrite HmaxA, (masked_assign_lookup _ _ _ v 0 true (added_at 0 a)) by done.
    by rewrite Hadd. }
  pose proof (masked_fill_lookup (zeros (grid_size settings)) _ label_A v 0 true
                (lookup_replicate_2 _ _ _ Hv) HgreaterA) as HsegA_v.
  cbn [negb] in HsegA_v.
  (* structure B *)
  destruct (process_structure_returns ARTERY VEIN RANDOM_ARTERY RANDOM_VEIN settings
              st_A B j HlenB Hy) as (st_B & HstB & HglobalB & HvolsB & _);
    [rewrite HnA, HfillingA, length_insert; cbn; lia|].
  destruct (update_volumes_segmentation (effective_properties B)
              (added_volume_fraction (global_volume_fractions st_A) (geometrical_volume B))
              (eligible_mask (global_volume_fractions st_A) (geometrical_volume B))
              (max_added_fractions st_A) (volumes st_A) label_B)
    as (volsB & segA & HfoldB & HkeysB & HsegA' & HsegvolB); [by rewrite HvolsA|done|].
  rewrite HfoldB in HvolsB. injection HvolsB as HvolsB HmaxB.
  rewrite HvolsA, HsegvolA in HsegA'. injection HsegA' as <-.
  pose proof (added_volume_fraction_lookup _ _ v _ b HgA HB) as HaddB.
  pose proof (eligible_mask_lookup _ _ v _ b HgA HB) as HmB.
  pose proof (global_update_lookup _ _ v _ b HgA HB) as HgB.
  rewrite <- HglobalB in HgB.
  assert (HgreaterB :
            mask_and (gt_tensor
                        (added_volume_fraction (global_volume_fractions st_A)
                           (geometrical_volume B))
                        (max_added_fractions st_A))
              (eligible_mask (global_volume_fractions st_A) (geometrical_volume B)) !! v
            = Some false).
  { unfold mask_and, gt_tensor. rewrite !lookup_zip_with, HaddB, HmaxA_v, HmB.
    cbn [mbind option_bind]. by rewrite Hless. }
  exists st_A, st_B, (added_at 0 a), (added_at (global_at 0 a) b),
    (global_at 0 a), (global_at (global_at 0 a) b).
  match type of HsegvolB with _ = Some ?t => exists t end.
  repeat split; try done.
  - unfold Compositor.create_simulation_volume. cbn [length Compositor.process_structures].
    fold st0. rewrite HstA. cbn [mbind result_bind]. rewrite HstB. done.
  - by rewrite Hadd.
  - rewrite HvolsB. exact HsegvolB.
  - exact (masked_fill_lookup _ _ label_B v label_A false HsegA_v HgreaterB).
Qed.

End OverlapScenario.

Section CompositorExamples.

Local Open Scope Q_scope.

Lemma overlap_keeps_label_of_larger_added_fraction_witness :
  (length (geometrical_volume structure_A) = grid_size column_settings
   /\ length (geometrical_volume structure_B) = grid_size column_settings
   /\ np_index (y_dim_px column_settings)
        (py_int ((DIM_VOLUME_Y_MM column_settings / 2) / SPACING_MM column_settings))
      = Ok 0%nat
   /\ geometrical_volume structure_A !! 0%nat = Some (6 # 10)
   /\ geometrical_volume structure_B !! 0%nat = Some (6 # 10))
  /\ exists st_A st_B added_A added_B global_A global_B segmentation,
       process_structure 6 7 8 9 column_settings (initial_state column_settings 2) structure_A
       = Ok st_A
       /\ process_structure 6 7 8 9 column_settings st_A structure_B = Ok st_B
       /\ create_simulation_volume 6 7 8 9 column_settings [structure_A; structure_B] = Ok st_B
       /\ added_volume_fraction (global_volume_fractions (initial_state column_settings 2))
            (geometrical_volume structure_A) !! 0%nat = Some added_A
       /\ added_A == 6 # 10
       /\ global_volume_fractions st_A !! 0%nat = Some global_A
       /\ global_A == 6 # 10
       /\ added_volume_fraction (global_volume_fractions st_A)
            (geometrical_volume structure_B) !! 0%nat = Some added_B
       /\ added_B == 4 # 10
       /\ global_volume_fractions st_B !! 0%nat = Some global_B
       /\ global_B == 1
       /\ get_volume SEGMENTATION (volumes st_B) = Some segmentation
       /\ segmentation !! 0%nat = Some 2.
Proof.
  split; [by repeat split|].
  apply (overlap_keeps_label_of_larger_added_fraction 6 7 8 9 column_settings
           structure_A structure_B 0 0 (6 # 10) (6 # 10) 2 3); reflexivity.
Defined.

Lemma column_structures_well_shaped :
  Forall (well_shaped column_settings) [structure_A; structure_B].
Proof.
  repeat constructor; unfold in_unit_interval; cbn; lra.
Qed.

Lemma global_occupancy_stays_in_unit_interval_witness :
  (np_index (y_dim_px column_settings)
     (py_int ((DIM_VOLUME_Y_MM column_settings / 2) / SPACING_MM column_settings))
   = Ok 0%nat
   /\ Forall (well_shaped column_settings) [structure_A; structure_B])
  /\ (exists st,
         state_after 6 7 8 9 column_settings 1 [structure_A; structure_B] = Ok st
         /\ length (global_volume_fractions st) = grid_size column_settings
         /\ Forall in_unit_interval (global_volume_fractions st))
  /\ (exists st,
         create_simulation_volume 6 7 8 9 column_settings [structure_A; structure_B] = Ok st
         /\ length (global_volume_fractions st) = grid_size column_settings
         /\ Forall in_unit_interval (global_volume_fractions st)).
Proof.
  split; [split; [reflexivity|apply column_structures_well_shaped]|].
  apply (global_occupancy_stays_in_unit_interval 6 7 8 9 column_settings
           [structure_A; structure_B] 0 1);
    [reflexivity|apply column_structures_well_shaped].
Defined.

(** In that example the occupancies of the two structures sum to 1.2 in
    the upper voxel and to 1.5 in the lower one, and the global
    occupancy ends at 1 in both. *)
Lemma column_pass_fills_both_voxels :
  exists st,
    create_simulation_volume 6 7 8 9 column_settings [structure_A; structure_B] = Ok st
    /\ Forall2 Qeq (global_volume_fractions st) [1; 1].
Proof. eexists. split; [vm_compute; reflexivity|]. by repeat constructor. Qed.

(** C3 (the source departs from it). The third structure has occupancy
    0 in both voxels, so neither voxel is eligible for it; processed
    after structure A, its audit slice is not zero: it holds the global
    occupancy that structure A left, 0.6 and 1. The sums that lines 117
    and 119 take under the mask are not affected: the global occupancy
    is the one structure A left. *)
Theorem audit_slice_of_absent_structure_is_not_zero :
  exists st,
    create_simulation_volume 6 7 8 9 column_settings [structure_A; absent_structure] = Ok st
    /\ geometrical_volume absent_structure = [0; 0]
    /\ eligible_mask [6 # 10; 1] (geometrical_volume absent_structure) = [false; false]
    /\ structures_filling st = [ [[6 # 10; 1]]; [[6 # 10; 1]] ]
    /\ global_volume_fractions st = [6 # 10; 1].
Proof. eexists. split; [vm_compute; reflexivity|]. by repeat split. Qed.

(** At a voxel that is not eligible because the structure is absent
    from it, [added_volume_fraction] holds the global occupancy, which
    is what the audit slice copies. *)
Lemma added_at_absent (g : Q) :
  0 < g <= 1 -> added_at g 0 == g.
Proof.
  intros [Hg0 Hg1]. unfold added_at.
  assert (eligible_at g 0 = false) as -> by (apply eligible_at_false; lra).
  change (inject_Z (Z.land 1 (Z.b2z false))) with 0.
  assert (Qle_bool (g + 0) 0 = false) as ->
    by (apply not_true_iff_false; rewrite Qle_bool_iff; lra).
  assert (float_lt 1 (g + 0) = false) as -> by (apply float_lt_false; lra).
  lra.
Qed.

End CompositorExamples.

(** * Further properties *)

(** ** The library of spectra *)

Section LibraryFacts.

Implicit Types (self : AbsorptionSpectrumLibrary) (name : string).

Lemma library_next_positive (l : list AbsorptionSpectrum) (k : nat) (s : AbsorptionSpectrum) :
  l !! k = Some s ->
  library_next (mkLibrary l (S k)) = (inl s, mkLibrary l k).
Proof.
  intros H. unfold library_next. cbn [i spectra Nat.ltb Nat.leb].
  replace (S k - 1)%nat with k by lia. by rewrite H.
Qed.

Lemma library_next_zero (l : list AbsorptionSpectrum) :
  library_next (mkLibrary l 0) = (inr StopIteration, mkLibrary l 0).
Proof. reflexivity. Qed.

Lemma names_loop_spec (l : list AbsorptionSpectrum) (k calls : nat) (names : list string) :
  (k <= length l)%nat -> (k < calls)%nat ->
  names_loop calls (mkLibrary l k) names
  = Some (inl (names ++ reverse (names_of (take k l))), mkLibrary l 0).
Proof.
  revert calls names. induction k as [|k IH]; intros calls names Hk Hcalls.
  - destruct calls; [lia|]. cbn [names_loop]. rewrite library_next_zero.
    by rewrite take_0, app_nil_r.
  - destruct calls; [lia|]. cbn [names_loop].
    destruct (lookup_lt_is_Some_2 l k) as [s Hs]; [lia|].
    rewrite (library_next_positive l k s Hs), IH by lia.
    rewrite (take_S_r l k s Hs). unfold names_of.
    by rewrite fmap_app, reverse_app, <- app_assoc.
Qed.

(** X1. On a library whose counter does not exceed the number of its
    spectra, [get_spectra_names] returns the names of the spectra below
    the counter, last one first, and leaves the counter at 0. *)
Theorem get_spectra_names_reversed_and_exhausting self :
  (i self <= length (spectra self))%nat ->
  get_spectra_names self
  = Some (inl (reverse (names_of (take (i self) (spectra self)))),
          mkLibrary (spectra self) 0).
Proof.
  intros H. destruct self as [l k]. unfold get_spectra_names. cbn [i spectra] in *.
  by rewrite names_loop_spec by lia.
Qed.

Lemma get_spectra_names_reversed_and_exhausting_witness :
  (i (AbsorptionSpectrumLibrary_init three_absorbers)
   <= length (spectra (AbsorptionSpectrumLibrary_init three_absorbers)))%nat
  /\ get_spectra_names (AbsorptionSpectrumLibrary_init three_absorbers)
     = Some (inl ["Constant Absorber (10)"; "Constant Absorber (1)"; "Constant Absorber (0)"]%string,
             mkLibrary three_absorbers 0).
Proof.
  split; [cbn; lia|].
  apply (get_spectra_names_reversed_and_exhausting
           (AbsorptionSpectrumLibrary_init three_absorbers)). cbn; lia.
Defined.

Lemma lookup_loop_spec (l : list AbsorptionSpectrum) name (k calls : nat) :
  (k <= length l)%nat -> (k < calls)%nat ->
  exists r k',
    lookup_loop calls (mkLibrary l k) name = Some (r, mkLibrary l k')
    /\ match r with
       | inl s =>
           l !! k' = Some s /\ spectrum_name s = name /\ (k' < k)%nat
           /\ forall j s', (k' < j < k)%nat -> l !! j = Some s' -> spectrum_name s' <> name
       | inr e =>
           e = LookupError "No spectrum for the given name exists" /\ k' = 0%nat
           /\ forall j s', (j < k)%nat -> l !! j = Some s' -> spectrum_name s' <> name
       end.
Proof.
  revert calls. induction k as [|k IH]; intros calls Hk Hcalls.
  - destruct calls; [lia|]. cbn [lookup_loop]. rewrite library_next_zero.
    eexists _, 0%nat. split; [done|]. repeat split. intros; lia.
  - destruct calls; [lia|]. cbn [lookup_loop].
    destruct (lookup_lt_is_Some_2 l k) as [s Hs]; [lia|].
    rewrite (library_next_positive l k s Hs).
    destruct (String.eqb_spec (spectrum_name s) name) as [Heq|Hne].
    + exists (inl s), k. split; [done|]. repeat split; try done; [lia|]. intros; lia.
    + destruct (IH calls) as (r & k' & Hloop & Hr); [lia|lia|].
      exists r, k'. split; [done|]. destruct r as [s'|e].
      * destruct Hr as (H1 & H2 & H3 & H4). repeat split; try done; [lia|].
        intros j s'' Hj Hlook. destruct (decide (j = k)) as [->|].
        -- congruence.
        -- apply (H4 j); [lia|done].
      * destruct Hr as (H1 & H2 & H3). repeat split; try done.
        intros j s'' Hj Hlook. destruct (decide (j = k)) as [->|].
        -- congruence.
        -- apply (H3 j); [lia|done].
Qed.

(** X2. [get_spectrum_by_name] searches downwards from the counter. It
    returns the spectrum of that name with the largest index below the
    counter and leaves the counter at that index; when no spectrum below
    the counter has the name it raises [LookupError] and leaves the
    counter at 0. The list of spectra is never changed. *)
Theorem get_spectrum_by_name_searches_below_counter self name :
  (i self <= length (spectra self))%nat ->
  exists r self',
    get_spectrum_by_name self name = Some (r, self')
    /\ spectra self' = spectra self
    /\ match r with
       | inl s =>
           spectra self !! i self' = Some s /\ spectrum_name s = name
           /\ (i self' < i self)%nat
           /\ forall j s', (i self' < j < i self)%nat ->
                 spectra self !! j = Some s' -> spectrum_name s' <> name
       | inr e =>
           e = LookupError "No spectrum for the given name exists" /\ i self' = 0%nat
           /\ forall j s', (j < i self)%nat ->
                 spectra self !! j = Some s' -> spectrum_name s' <> name
       end.
Proof.
  intros H. destruct self as [l k]. unfold get_spectrum_by_name. cbn [i spectra] in *.
  destruct (lookup_loop_spec l name k (S k)) as (r & k' & Hloop & Hr); [lia|lia|].
  exists r, (mkLibrary l k'). by repeat split.
Qed.

Lemma get_spectrum_by_name_searches_below_counter_witness :
  let self := AbsorptionSpectrumLibrary_init three_absorbers in
  let name := "Constant Absorber (1)"%string in
  (i self <= length (spectra self))%nat
  /\ exists r self',
       get_spectrum_by_name self name = Some (r, self')
       /\ spectra self' = spectra self
       /\ match r with
          | inl s =>
              spectra self !! i self' = Some s /\ spectrum_name s = name
              /\ (i self' < i self)%nat
              /\ forall j s', (i self' < j < i self)%nat ->
                    spectra self !! j = Some s' -> spectrum_name s' <> name
          | inr e =>
              e = LookupError "No spectrum for the given name exists" /\ i self' = 0%nat
              /\ forall j s', (j < i self)%nat ->
                    spectra self !! j = Some s' -> spectrum_name s' <> name
          end.
Proof.
  intros self name. split; [cbn; lia|].
  apply (get_spectrum_by_name_searches_below_counter self name). cbn; lia.
Defined.

(** X3. In a library whose spectra have pairwise different names, looking
    a name up a second time fails: the first call of
    [get_spectrum_by_name] on the fresh library returns the spectrum and
    the second call, for the same name, raises [LookupError]. *)
Theorem second_lookup_of_a_name_fails (l : list AbsorptionSpectrum) name :
  NoDup (names_of l) ->
  name ∈ names_of l ->
  exists s self1 self2,
    get_spectrum_by_name (AbsorptionSpectrumLibrary_init l) name = Some (inl s, self1)
    /\ spectrum_name s = name
    /\ get_spectrum_by_name self1 name
       = Some (inr (LookupError "No spectrum for the given name exists"), self2).
Proof.
  intros Hnodup Hin. unfold get_spectrum_by_name, AbsorptionSpectrumLibrary_init.
  cbn [i spectra].
  destruct (lookup_loop_spec l name (length l) (S (length l)))
    as (r & k1 & Hcall & Hr); [lia|lia|].
  destruct r as [s|e].
  - destruct Hr as (Hs & Hname & Hlt & _).
    destruct (lookup_loop_spec l name k1 (S k1)) as (r2 & k2 & Hcall2 & Hr2); [lia|lia|].
    exists s, (mkLibrary l k1), (mkLibrary l k2). split; [done|]. split; [done|].
    cbn [i spectra]. rewrite Hcall2.
    destruct r2 as [s2|e2].
    + exfalso. destruct Hr2 as (Hs2 & Hname2 & Hlt2 & _).
      assert (names_of l !! k1 = Some name)
        by (unfold names_of; by rewrite list_lookup_fmap, Hs, <- Hname).
      assert (names_of l !! k2 = Some name)
        by (unfold names_of; by rewrite list_lookup_fmap, Hs2, <- Hname2).
      assert (k1 = k2) by (by eapply NoDup_lookup). lia.
    + by destruct Hr2 as (-> & _).
  - exfalso. destruct Hr as (_ & _ & Hnone).
    apply list_elem_of_lookup in Hin as [j Hj]. unfold names_of in Hj.
    rewrite list_lookup_fmap in Hj.
    destruct (l !! j) as [s|] eqn:Hs; [|done]. injection Hj as Hj.
    apply (Hnone j s); [by eapply lookup_lt_Some|done|done].
Qed.

Lemma second_lookup_of_a_name_fails_witness :
  (NoDup (names_of three_absorbers)
   /\ "Constant Absorber (10)"%string ∈ names_of three_absorbers)
  /\ exists s self1 self2,
       get_spectrum_by_name (AbsorptionSpectrumLibrary_init three_absorbers)
         "Constant Absorber (10)" = Some (inl s, self1)
       /\ spectrum_name s = "Constant Absorber (10)"%string
       /\ get_spectrum_by_name self1 "Constant Absorber (10)"
          = Some (inr (LookupError "No spectrum for the given name exists"), self2).
Proof.
  assert (H1 : NoDup (names_of three_absorbers)).
  { cbn. repeat (apply NoDup_cons_2;
                 [rewrite ?elem_of_cons, elem_of_nil; intuition discriminate|]).
    apply NoDup_nil_2. }
  assert (H2 : "Constant Absorber (10)"%string ∈ names_of three_absorbers)
    by (cbn; rewrite !elem_of_cons; auto).
  split; [by split|].
  exact (second_lookup_of_a_name_fails three_absorbers "Constant Absorber (10)" H1 H2).
Defined.

(** X4. Once [get_spectra_names] has run, the library is used up: every
    [get_spectrum_by_name] raises [LookupError], also for the names just
    listed, and a second [get_spectra_names] returns the empty list. *)
Theorem library_is_used_up_after_listing self names self' name :
  (i self <= length (spectra self))%nat ->
  get_spectra_names self = Some (inl names, self') ->
  get_spectrum_by_name self' name
  = Some (inr (LookupError "No spectrum for the given name exists"), self')
  /\ get_spectra_names self' = Some (inl [], self').
Proof.
  intros H Hcall. destruct self as [l k]. unfold get_spectra_names in Hcall.
  cbn [i spectra] in *. rewrite names_loop_spec in Hcall by lia.
  injection Hcall as _ <-. split; reflexivity.
Qed.

Lemma library_is_used_up_after_listing_witness :
  ((i (AbsorptionSpectrumLibrary_init three_absorbers)
    <= length (spectra (AbsorptionSpectrumLibrary_init three_absorbers)))%nat
   /\ get_spectra_names (AbsorptionSpectrumLibrary_init three_absorbers)
      = Some (inl ["Constant Absorber (10)"; "Constant Absorber (1)"; "Constant Absorber (0)"]%string,
              mkLibrary three_absorbers 0))
  /\ get_spectrum_by_name (mkLibrary three_absorbers 0) "Constant Absorber (1)"
     = Some (inr (LookupError "No spectrum for the given name exists"),
             mkLibrary three_absorbers 0)
  /\ get_spectra_names (mkLibrary three_absorbers 0)
     = Some (inl [], mkLibrary three_absorbers 0).
Proof.
  assert (H1 : (i (AbsorptionSpectrumLibrary_init three_absorbers)
                <= length (spectra (AbsorptionSpectrumLibrary_init three_absorbers)))%nat)
    by (cbn; lia).
  assert (H2 : get_spectra_names (AbsorptionSpectrumLibrary_init three_absorbers)
               = Some (inl ["Constant Absorber (10)"; "Constant Absorber (1)";
                            "Constant Absorber (0)"]%string,
                       mkLibrary three_absorbers 0)) by reflexivity.
  split; [by split|].
  exact (library_is_used_up_after_listing _ _ _ "Constant Absorber (1)" H1 H2).
Defined.

End LibraryFacts.

(** ** Construction and resampling of a spectrum *)

Section ResamplingFacts.

Local Open Scope Q_scope.

(** What a construction that returns has checked and stored. *)
Lemma init_returns (name : string) (wl : list Z) (ab : list Q) (s : AbsorptionSpectrum) :
  AbsorptionSpectrum_init name wl ab = Ok s ->
  wl <> [] /\ length wl = length ab
  /\ spectrum_name s = name /\ wavelengths s = wl /\ absorption_per_centimeter s = ab
  /\ Ok (min_wavelength s) = np_min wl /\ Ok (max_wavelength s) = np_max wl.
Proof.
  intros Hinit. unfold AbsorptionSpectrum_init in Hinit.
  destruct wl as [|x wl]; [done|]. cbn [np_max np_min mbind result_bind] in Hinit.
  destruct (length (x :: wl) =? length ab)%nat eqn:Heq; cbn [negb] in Hinit; [|done].
  apply Nat.eqb_eq in Heq.
  destruct (np_interp _ _ _) as [na|]; cbn [mbind result_bind] in Hinit; [|done].
  injection Hinit as <-. by repeat split.
Qed.

(** X5. [AbsorptionSpectrum(name, wavelengths, absorption)] raises
    [ValueError] exactly when [wavelengths] is empty or the two arrays
    differ in length; in every other case it returns a spectrum that keeps
    the three arguments and has one table entry per integer wavelength from
    the smallest to the largest one. *)
Theorem init_raises_on_empty_or_mismatched_arrays
    (name : string) (wl : list Z) (ab : list Q) :
  match AbsorptionSpectrum_init name wl ab with
  | Ok s =>
      wl <> [] /\ length wl = length ab
      /\ spectrum_name s = name /\ wavelengths s = wl /\ absorption_per_centimeter s = ab
      /\ Ok (min_wavelength s) = np_min wl /\ Ok (max_wavelength s) = np_max wl
      /\ length (new_absorptions s) = Z.to_nat (max_wavelength s - min_wavelength s + 1)
  | Raise e =>
      (wl = [] \/ length wl <> length ab) /\ exists msg, e = ValueError msg
  end.
Proof.
  destruct (AbsorptionSpectrum_init name wl ab) as [s|e] eqn:Hinit.
  - pose proof (init_table _ _ _ _ Hinit) as (_ & _ & Hlen).
    destruct (init_returns _ _ _ _ Hinit) as (?&?&?&?&?&?&?). by repeat split.
  - unfold AbsorptionSpectrum_init in Hinit.
    destruct wl as [|x wl]; cbn [np_max np_min mbind result_bind] in Hinit.
    + injection Hinit as <-. split; [by left|eauto].
    + destruct (length (x :: wl) =? length ab)%nat eqn:Heq; cbn [negb] in Hinit.
      * exfalso. apply Nat.eqb_eq in Heq. unfold np_interp in Hinit.
        rewrite !length_fmap, Heq, Nat.eqb_refl in Hinit.
        destruct ab; [done|]. done.
      * apply Nat.eqb_neq in Heq. injection Hinit as <-. split; [by right|eauto].
Qed.

Lemma ascending_head_le (x0 : Z) (l : list Z) (j : nat) (x : Z) :
  strictly_ascending (x0 :: l) -> (x0 :: l) !! j = Some x -> (x0 <= x)%Z.
Proof.
  revert x0 j. induction l as [|x1 l IH]; intros x0 j Hasc Hj.
  - destruct j; [|done]. injection Hj as <-. lia.
  - destruct j as [|j]; [injection Hj as <-; lia|].
    destruct Hasc as [Hlt Hasc]. cbn in Hj. specialize (IH x1 j Hasc Hj). lia.
Qed.

Lemma Qle_bool_inject (a b : Z) : Qle_bool (inject_Z a) (inject_Z b) = (a <=? b)%Z.
Proof.
  apply eq_true_iff_eq. rewrite Qle_bool_iff, <- Zle_Qle. symmetry. apply Z.leb_le.
Qed.

Lemma Qeq_bool_inject_refl (a : Z) : Qeq_bool (inject_Z a) (inject_Z a) = true.
Proof. apply Qeq_bool_refl. Qed.

(** On a sample point of an ascending array, interpolation returns the
    sample itself. *)
Lemma interp_from_sample (xp : list Z) (fp : list Q) (j : nat) (x : Z) (y : Q) :
  strictly_ascending xp -> length xp = length fp ->
  xp !! j = Some x -> fp !! j = Some y ->
  interp_from (inject_Z x) (inject_Z <$> xp) fp = y.
Proof.
  revert fp j. induction xp as [|x0 xp IH]; intros fp j Hasc Hlen Hx Hy; [done|].
  destruct fp as [|y0 fp]; [done|].
  destruct xp as [|x1 xp].
  - destruct j; [|done]. cbn in *. congruence.
  - destruct fp as [|y1 fp]; [done|].
    cbn [fmap list_fmap interp_from]. rewrite Qle_bool_inject.
    destruct Hasc as [Hlt Hasc]. destruct j as [|j].
    + injection Hx as <-. injection Hy as <-.
      destruct (Z.leb_spec x1 x0); [lia|]. by rewrite Qeq_bool_inject_refl.
    + cbn in Hx, Hy. pose proof (ascending_head_le x1 xp j x Hasc Hx).
      destruct (Z.leb_spec x1 x); [|lia].
      apply (IH (y1 :: fp) j); try done. cbn in *. lia.
Qed.

Lemma np_min_max_bound (wl : list Z) (mn mx x : Z) :
  np_min wl = Ok mn -> np_max wl = Ok mx -> x ∈ wl -> (mn <= x <= mx)%Z.
Proof.
  destruct wl as [|x0 wl]; [done|]. cbn. intros [= <-] [= <-] Hin.
  apply elem_of_cons in Hin as [->|Hin].
  - split; [clear; induction wl; simpl; lia|clear; induction wl; simpl; lia].
  - clear -Hin. induction wl as [|a wl IH]; [by apply elem_of_nil in Hin|].
    apply elem_of_cons in Hin as [->|Hin]; simpl; [lia|]. specialize (IH Hin). lia.
Qed.

(** The table entry of a wavelength between the smallest and the largest
    one. *)
Lemma init_table_entry (name : string) (wl : list Z) (ab : list Q)
    (s : AbsorptionSpectrum) (w : Z) :
  AbsorptionSpectrum_init name wl ab = Ok s ->
  (min_wavelength s <= w <= max_wavelength s)%Z ->
  get_absorption_for_wavelength s w = Ok (interp1 (inject_Z w) (inject_Z <$> wl) ab).
Proof.
  intros Hinit Hw. unfold AbsorptionSpectrum_init in Hinit.
  destruct (np_max wl) as [mx|] eqn:Emx; cbn [mbind result_bind] in Hinit; [|done].
  destruct (np_min wl) as [mn|] eqn:Emn; cbn [mbind result_bind] in Hinit; [|done].
  destruct (negb _); [done|]. unfold np_interp in Hinit.
  destruct (_ =? 0)%nat; [done|]. destruct (negb _); [done|].
  cbn [mbind result_bind] in Hinit. injection Hinit as <-.
  cbn [min_wavelength max_wavelength] in Hw.
  unfold get_absorption_for_wavelength. cbn [new_absorptions min_wavelength].
  apply np_getitem_nonneg; [lia|].
  rewrite !list_lookup_fmap, np_arange_lookup by lia. cbn [fmap option_fmap option_map].
  do 3 f_equal. lia.
Qed.

(** X6. For a spectrum built from strictly ascending wavelengths, the
    lookup at each of the given wavelengths returns the absorption that
    was given for it: resampling keeps the samples. *)
Theorem lookup_at_sample_returns_sample (name : string) (wl : list Z) (ab : list Q)
    (s : AbsorptionSpectrum) (j : nat) (x : Z) (y : Q) :
  AbsorptionSpectrum_init name wl ab = Ok s ->
  strictly_ascending wl ->
  wl !! j = Some x -> ab !! j = Some y ->
  get_absorption_for_wavelength s x = Ok y.
Proof.
  intros Hinit Hasc Hx Hy.
  destruct (init_returns name wl ab s Hinit) as (_ & Hlen & _ & _ & _ & Hmin & Hmax).
  assert (min_wavelength s <= x <= max_wavelength s)%Z
    by (eapply np_min_max_bound; [done|done|by eapply list_elem_of_lookup_2]).
  rewrite (init_table_entry name wl ab s x Hinit) by done. f_equal.
  destruct wl as [|x0 wl]; [done|]. destruct ab as [|y0 ab]; [done|].
  unfold interp1. cbn [fmap list_fmap]. rewrite Qle_bool_inject.
  pose proof (ascending_head_le x0 wl j x Hasc Hx).
  destruct (Z.leb_spec x0 x); [|lia].
  by apply (interp_from_sample (x0 :: wl) (y0 :: ab) j).
Qed.

Lemma lookup_at_sample_returns_sample_witness :
  (AbsorptionSpectrum_init "ramp" [900; 1000]%Z [1; 2] = Ok ramp_spectrum
   /\ strictly_ascending [900; 1000]%Z
   /\ [900; 1000]%Z !! 1%nat = Some 1000%Z
   /\ [1; 2] !! 1%nat = Some 2)
  /\ get_absorption_for_wavelength ramp_spectrum 1000 = Ok 2.
Proof.
  assert (H1 : AbsorptionSpectrum_init "ramp" [900; 1000]%Z [1; 2] = Ok ramp_spectrum)
    by reflexivity.
  assert (H2 : strictly_ascending [900; 1000]%Z) by (cbn; lia).
  split; [by repeat split|].
  exact (lookup_at_sample_returns_sample "ramp" [900; 1000]%Z [1; 2] ramp_spectrum
           1 1000 2 H1 H2 eq_refl eq_refl).
Defined.

(** A value interpolated between two samples lies between them. *)
Lemma interpolation_between (lo hi x0 x1 x y0 y1 : Q) :
  x0 <= x -> x < x1 -> between lo hi y0 -> between lo hi y1 ->
  between lo hi ((y1 - y0) / (x1 - x0) * (x - x0) + y0).
Proof.
  unfold between. intros Hx0 Hx1 [Hl0 Hh0] [Hl1 Hh1].
  set (t := (x - x0) / (x1 - x0)).
  assert (Ht0 : 0 <= t) by (apply Qle_shift_div_l; lra).
  assert (Ht1 : t <= 1) by (apply Qle_shift_div_r; lra).
  assert (Heq : (y1 - y0) / (x1 - x0) * (x - x0) + y0 == y0 + t * (y1 - y0))
    by (unfold t; field; lra).
  rewrite Heq.
  assert (0 <= t * (y1 - lo)) by (apply Qmult_le_0_compat; lra).
  assert (0 <= (1 - t) * (y0 - lo)) by (apply Qmult_le_0_compat; lra).
  assert (0 <= t * (hi - y1)) by (apply Qmult_le_0_compat; lra).
  assert (0 <= (1 - t) * (hi - y0)) by (apply Qmult_le_0_compat; lra).
  split; lra.
Qed.

Lemma interp_from_step (x x0 x1 y0 y1 : Q) (xp fp : list Q) :
  interp_from x (x0 :: x1 :: xp) (y0 :: y1 :: fp)
  = if Qle_bool x1 x then interp_from x (x1 :: xp) (y1 :: fp)
    else if Qeq_bool x0 x then y0
    else (y1 - y0) / (x1 - x0) * (x - x0) + y0.
Proof. reflexivity. Qed.

Lemma interp_from_between (lo hi x : Q) (xp fp : list Q) :
  length xp = length fp -> xp <> [] ->
  (forall x0, head xp = Some x0 -> x0 <= x) ->
  Forall (between lo hi) fp ->
  between lo hi (interp_from x xp fp).
Proof.
  revert fp. induction xp as [|x0 xp IH]; intros fp Hlen Hne Hhead Hall; [done|].
  destruct fp as [|y0 fp]; [done|].
  apply Forall_cons in Hall as [Hy0 Hall].
  destruct xp as [|x1 xp].
  - done.
  - destruct fp as [|y1 fp]; [done|]. rewrite interp_from_step.
    destruct (Qle_bool x1 x) eqn:Hle.
    + apply IH; try done; [cbn in *; lia|].
      intros ? [= <-]. by apply Qle_bool_iff.
    + destruct (Qeq_bool x0 x); [done|].
      apply Forall_cons in Hall as [Hy1 _].
      apply interpolation_between; try done.
      * by apply Hhead.
      * apply Qnot_le_lt. intros H. apply Qle_bool_iff in H. congruence.
Qed.

Lemma interp1_between (lo hi x : Q) (xp fp : list Q) :
  length xp = length fp -> xp <> [] ->
  Forall (between lo hi) fp ->
  between lo hi (interp1 x xp fp).
Proof.
  intros Hlen Hne Hall. destruct xp as [|x0 xp]; [done|].
  destruct fp as [|y0 fp]; [done|]. unfold interp1.
  destruct (Qle_bool x0 x) eqn:Hle.
  - apply interp_from_between; try done. intros ? [= <-]. by apply Qle_bool_iff.
  - by apply Forall_cons in Hall as [? _].
Qed.

(** X7. Resampling never leaves the range of the samples: when every
    given absorption lies in [lo, hi], so does every value that
    [get_absorption_for_wavelength] returns, for every wavelength,
    wrapped or not. In particular a spectrum of non-negative samples has
    no negative absorption. *)
Theorem lookup_stays_in_range_of_samples (name : string) (wl : list Z) (ab : list Q)
    (s : AbsorptionSpectrum) (lo hi : Q) (w : Z) (v : Q) :
  AbsorptionSpectrum_init name wl ab = Ok s ->
  Forall (between lo hi) ab ->
  get_absorption_for_wavelength s w = Ok v ->
  between lo hi v.
Proof.
  intros Hinit Hall Hget.
  destruct (init_returns name wl ab s Hinit) as (Hne & Hlen & _).
  unfold AbsorptionSpectrum_init in Hinit.
  destruct (np_max wl) as [mx|]; cbn [mbind result_bind] in Hinit; [|done].
  destruct (np_min wl) as [mn|]; cbn [mbind result_bind] in Hinit; [|done].
  destruct (negb _); [done|]. unfold np_interp in Hinit.
  destruct (_ =? 0)%nat; [done|]. destruct (negb _); [done|].
  cbn [mbind result_bind] in Hinit. injection Hinit as <-.
  unfold get_absorption_for_wavelength in Hget. cbn [new_absorptions min_wavelength] in Hget.
  apply np_getitem_Ok in Hget as (k & _ & Hk).
  rewrite !list_lookup_fmap in Hk.
  destruct (np_arange mn (mx + 1) !! k) as [z|]; [|done].
  cbn in Hk. injection Hk as <-.
  apply interp1_between; [by rewrite length_fmap| |done].
  destruct wl; [done|]. done.
Qed.

Lemma lookup_stays_in_range_of_samples_witness :
  (AbsorptionSpectrum_init "ramp" [900; 1000]%Z [1; 2] = Ok ramp_spectrum
   /\ Forall (between 1 2) [1; 2]
   /\ get_absorption_for_wavelength ramp_spectrum 950 = Ok (150 # 100))
  /\ between 1 2 (150 # 100).
Proof.
  assert (H1 : AbsorptionSpectrum_init "ramp" [900; 1000]%Z [1; 2] = Ok ramp_spectrum)
    by reflexivity.
  assert (H2 : Forall (between 1 2) [1; 2])
    by (repeat constructor; unfold between; lra).
  assert (H3 : get_absorption_for_wavelength ramp_spectrum 950 = Ok (150 # 100))
    by (vm_compute; reflexivity).
  split; [by repeat split|].
  exact (lookup_stays_in_range_of_samples "ramp" [900; 1000]%Z [1; 2] ramp_spectrum
           1 2 950 (150 # 100) H1 H2 H3).
Defined.

End ResamplingFacts.

(** ** Computing and caching the optical properties *)

Section OpticalFacts.

Local Open Scope Q_scope.

Variable fpow : Q -> Q -> Q.

Local Abbreviation lookup_body w := (fun molecule =>
  tick_lookup;;
  v ← lift (get_absorption_for_wavelength (spectrum molecule) w);
  update_properties (fun p =>
    set_absorption (tp_absorption p + volume_fraction molecule * v) p);;
  update_properties (fun p =>
    set_scattering (tp_scattering p + scattering_term fpow molecule w) p)).




Lemma np_index_raises (n : nat) (i : Z) e : np_index n i = Raise e -> e = IndexError.
Proof. unfold np_index. repeat (destruct (_ && _)); congruence. Qed.


Lemma np_setitem_raises {A} (a : list A) (i : Z) (x : A) e :
  np_setitem a i x = Raise e -> e = IndexError.
Proof.
  unfold np_setitem. destruct (np_index _ _) as [k|e'] eqn:Hk; cbn; [done|].
  intros [= <-]. by eapply np_index_raises.
Qed.

Lemma np_setitem_same_length {A} (a b : list A) (i : Z) (x y : A) a' :
  length b = length a -> np_setitem a i x = Ok a' -> exists b', np_setitem b i y = Ok b'.
Proof.
  unfold np_setitem. intros ->. destruct (np_index _ _); cbn; [eauto|done].
Qed.



Lemma set_slot (a : Q) : ~ a == UNSET -> negb (Qeq_bool a UNSET) = true.
Proof.
  intros H. destruct (Qeq_bool a UNSET) eqn:E; [by apply Qeq_bool_eq in E|done].
Qed.


Lemma same_but_optical_refl (W : World) : same_but_optical W W.
Proof. by repeat split. Qed.

Lemma same_but_optical_trans (W1 W2 W3 : World) :
  same_but_optical W1 W2 -> same_but_optical W2 W3 -> same_but_optical W1 W3.
Proof.
  intros (Hi & Hm & Hs & Hl & Ho & Hp) (Hi' & Hm' & Hs' & Hl' & Ho' & Hp').
  rewrite Hi in Ho', Hp'.
  destruct Hp as (?&?&?&?&?&?&?&?), Hp' as (?&?&?&?&?&?&?&?).
  do 4 (split; [congruence|]). split.
  - intros l Hne. rewrite Ho' by done. by apply Ho.
  - repeat split; congruence.
Qed.

Lemma update_properties_optical (f : TissueProperties -> TissueProperties) (W : World) :
  (forall p, same_mechanical p (f p)) ->
  same_but_optical W (update_properties f W).2.
Proof.
  intros Hf. unfold same_but_optical, update_properties.
  cbn [snd self store spectrum_lookups].
  do 3 (split; [done|]). split; [by rewrite length_alter|]. split.
  - intros l Hne. by rewrite list_lookup_alter_ne.
  - destruct (decide (internal_properties (self W) < length (store W))%nat) as [Hlt|Hge].
    + rewrite list_lookup_total_alter_eq by done. by apply Hf.
    + rewrite list_alter_same; [by repeat split|].
      intros x Hx. apply lookup_lt_Some in Hx. lia.
Qed.

Lemma optical_alter (f : TissueProperties -> TissueProperties) (n : nat) (W : World) :
  (forall p, same_mechanical p (f p)) ->
  same_but_optical W
    (mkWorld (self W) (alter f (internal_properties (self W)) (store W)) n).
Proof. intros Hf. by apply (update_properties_optical f (mkWorld (self W) (store W) n)) in Hf. Qed.

Lemma optical_self (c : MolecularComposition) (n : nat) (W : World) :
  internal_properties c = internal_properties (self W) ->
  molecules c = molecules (self W) ->
  segmentation_type c = segmentation_type (self W) ->
  same_but_optical W (mkWorld c (store W) n).
Proof. intros. by repeat split. Qed.

Lemma same_mechanical_absorption (x : Q) (p : TissueProperties) :
  same_mechanical p (set_absorption x p).
Proof. by repeat split. Qed.

Lemma same_mechanical_scattering (x : Q) (p : TissueProperties) :
  same_mechanical p (set_scattering x p).
Proof. by repeat split. Qed.

Lemma same_mechanical_trans (p q r : TissueProperties) :
  same_mechanical p q -> same_mechanical q r -> same_mechanical p r.
Proof.
  intros (?&?&?&?&?&?&?&?) (?&?&?&?&?&?&?&?). repeat split; congruence.
Qed.

Lemma lookup_loop_optical (w : Z) (ms : list Molecule) (W : World) r W' :
  for_each ms (lookup_body w) W = (r, W') -> same_but_optical W W'.
Proof.
  apply for_each_preserves.
  - apply same_but_optical_refl.
  - apply same_but_optical_trans.
  - intros m W0 r0 W0'. m_unfold. cbn [self store spectrum_lookups].
    destruct (get_absorption_for_wavelength (spectrum m) w).
    + intros [= _ <-]. rewrite list_alter_alter_eq. apply optical_alter.
      intros p. eapply same_mechanical_trans;
        [apply same_mechanical_absorption|apply same_mechanical_scattering].
    + intros [= _ <-]. by apply optical_self.
Qed.

Lemma call_optical (w : Z) (W : World) (r : result loc) (W' : World) :
  get_properties_for_wavelength fpow w W = (r, W') -> same_but_optical W W'.
Proof.
  unfold get_properties_for_wavelength. m_unfold.
  destruct (np_getitem (cached_absorption (self W)) w) as [a|] eqn:Ea;
    [|intros [= _ <-]; apply same_but_optical_refl].
  destruct (negb (Qeq_bool a UNSET)) eqn:Eset.
  - destruct (np_getitem (cached_scattering (self W)) w) as [s|] eqn:Es;
      [|intros [= _ <-]; apply same_but_optical_refl].
    cbn [self store spectrum_lookups]. intros [= _ <-].
    rewrite list_alter_alter_eq. apply optical_alter.
    intros p. eapply same_mechanical_trans;
      [apply same_mechanical_absorption|apply same_mechanical_scattering].
  - cbn [self store spectrum_lookups]. rewrite list_alter_alter_eq.
    match goal with
    | |- context [for_each ?ms ?b ?W0] =>
        change (for_each ms b W0) with (for_each ms (lookup_body w) W0);
        destruct (for_each ms (lookup_body w) W0) as [[[]|e] W1] eqn:Eloop
    end.
    all: apply lookup_loop_optical in Eloop.
    all: assert (Hreset : same_but_optical W
           (mkWorld (self W)
              (alter (set_scattering 0 ∘ set_absorption 0)
                 (internal_properties (self W)) (store W)) (spectrum_lookups W)))
      by (apply optical_alter; intros p; eapply same_mechanical_trans;
          [apply same_mechanical_absorption|apply same_mechanical_scattering]).
    all: pose proof (same_but_optical_trans _ _ _ Hreset Eloop) as Hloop.
    2: { intros [= _ <-]. exact Hloop. }
    pose proof Hloop as (Hi & Hm & Hs & _).
    destruct (np_setitem (cached_absorption (self W)) w _) as [ca|] eqn:Eca.
    2: { intros [= _ <-]. exact Hloop. }
    cbn [self store spectrum_lookups internal_properties].
    destruct (np_setitem (cached_scattering (self W)) w _) as [cs|] eqn:Ecs.
    all: cbn [self store spectrum_lookups internal_properties].
    all: intros [= _ <-].
    all: eapply same_but_optical_trans; [exact Hloop|by apply optical_self].
Qed.

(** X9. Whether it returns or raises, a call of
    [get_properties_for_wavelength] leaves the reference, the molecules
    and the segmentation type of [self] as they were, adds and removes no
    object, changes no object other than the record behind
    [self.internal_properties], and in that record changes nothing but
    the absorption and the scattering: volume fraction, anisotropy,
    Grüneisen parameter, segmentation, oxygenation, density, speed of
    sound and alpha coefficient are never written. *)
Theorem call_writes_only_absorption_and_scattering (w : Z) (W : World)
    (r : result loc) (W' : World) :
  get_properties_for_wavelength fpow w W = (r, W') -> same_but_optical W W'.
Proof. apply call_optical. Qed.


(** X11. On a composition as [__init__] builds it, whose two cache
    arrays have 5000 entries, a wavelength of 5000 or more, or below
    -5000, makes [get_properties_for_wavelength] raise [IndexError]
    before it has changed anything. *)
Theorem wavelength_beyond_the_cache_raises (seg : option Q)
    (settings : option (list (string * Molecule))) (objects : list TissueProperties)
    (w : Z) :
  (w < -5000 \/ 5000 <= w)%Z ->
  get_properties_for_wavelength fpow w (MolecularComposition_init seg settings objects)
  = (Raise IndexError, MolecularComposition_init seg settings objects).
Proof.
  intros Hw. unfold get_properties_for_wavelength. m_unfold.
  rewrite np_getitem_outside; [done|].
  cbn [self MolecularComposition_init cached_absorption]. rewrite length_replicate. lia.
Qed.

(** X12. Appending a molecule does not invalidate the cache. When a call
    for [w] has returned with an absorption other than the sentinel and a
    molecule is appended afterwards, the next call for [w] returns the
    same reference and changes nothing: the record keeps the numbers that
    were computed without the new molecule, and no spectrum is looked
    up. *)
Theorem append_does_not_invalidate_cache (w : Z) (W : World) (r : loc) (W1 : World)
    (m : Molecule) (W2 : World) :
  (internal_properties (self W) < length (store W))%nat ->
  get_properties_for_wavelength fpow w W = (Ok r, W1) ->
  ~ tp_absorption (store W1 !!! r) == UNSET ->
  append m W1 = (Ok tt, W2) ->
  molecules (self W2) = molecules (self W) ++ [m]
  /\ store W2 = store W1
  /\ get_properties_for_wavelength fpow w W2 = (Ok r, W2).
Proof.
  intros Hwf Hcall Hset. unfold append. m_unfold. intros [= <-].
  destruct (get_properties_returns fpow w W r W1 Hcall) as (-> & Hip & Hms & _ & Hcache).
  destruct (Hcache Hwf) as [Ha Hs].
  cbn [self store molecules]. rewrite Hms. do 2 (split; [done|]).
  rewrite <- Hip in *.
  by apply (get_properties_cached_noop fpow w
              (mkWorld (mkComposition (molecules (self W) ++ [m]) (segmentation_type (self W1))
                          (internal_properties (self W1)) (cached_absorption (self W1))
                          (cached_scattering (self W1)))
                 (store W1) (spectrum_lookups W1))).
Qed.

End OpticalFacts.

Section OpticalExamples.

Local Open Scope Q_scope.


Lemma call_writes_only_absorption_and_scattering_witness :
  let W := single_molecule_world (plain_molecule ramp_spectrum (1 # 2)) in
  let call := get_properties_for_wavelength unit_pow 900 W in
  call = (call.1, call.2) /\ same_but_optical W call.2.
Proof.
  intros W call.
  assert (H1 : call = (call.1, call.2)) by (vm_compute; reflexivity).
  split; [exact H1|].
  exact (call_writes_only_absorption_and_scattering unit_pow 900 W call.1 call.2 H1).
Defined.


Lemma wavelength_beyond_the_cache_raises_witness :
  (5000 < -5000 \/ 5000 <= 5000)%Z
  /\ get_properties_for_wavelength unit_pow 5000
       (single_molecule_world (plain_molecule ramp_spectrum (1 # 2)))
     = (Raise IndexError, single_molecule_world (plain_molecule ramp_spectrum (1 # 2))).
Proof.
  assert (H : (5000 < -5000 \/ 5000 <= 5000)%Z) by lia.
  split; [exact H|].
  exact (wavelength_beyond_the_cache_raises unit_pow None
           (Some [("m"%string, plain_molecule ramp_spectrum (1 # 2))]) [] 5000 H).
Defined.

Lemma append_does_not_invalidate_cache_witness :
  let W := single_molecule_world (plain_molecule ramp_spectrum (1 # 2)) in
  let W1 := (get_properties_for_wavelength unit_pow 900 W).2 in
  let m := plain_molecule ramp_spectrum (1 # 4) in
  let W2 := (append m W1).2 in
  ((internal_properties (self W) < length (store W))%nat
   /\ get_properties_for_wavelength unit_pow 900 W = (Ok 0%nat, W1)
   /\ ~ tp_absorption (store W1 !!! 0%nat) == UNSET
   /\ append m W1 = (Ok tt, W2))
  /\ (molecules (self W2) = molecules (self W) ++ [m]
      /\ store W2 = store W1
      /\ get_properties_for_wavelength unit_pow 900 W2 = (Ok 0%nat, W2)).
Proof.
  intros W W1 m W2.
  assert (H1 : (internal_properties (self W) < length (store W))%nat)
    by (vm_compute; lia).
  assert (H2 : get_properties_for_wavelength unit_pow 900 W = (Ok 0%nat, W1))
    by (vm_compute; reflexivity).
  assert (H3 : ~ tp_absorption (store W1 !!! 0%nat) == UNSET)
    by (vm_compute; discriminate).
  assert (H4 : append m W1 = (Ok tt, W2)) by (vm_compute; reflexivity).
  split; [exact (conj H1 (conj H2 (conj H3 H4)))|].
  exact (append_does_not_invalidate_cache unit_pow 900 W 0%nat W1 m W2 H1 H2 H3 H4).
Defined.

End OpticalExamples.

(** ** Rebuilding the record *)

Section UpdateFacts.

Local Open Scope Q_scope.

Variable fpow : Q -> Q -> Q.
Variable calculate_oxygenation : list Molecule -> option Q.

(** The world that [update_internal_properties] leaves. *)
Lemma update_internal_properties_result (W : World) :
  update_internal_properties calculate_oxygenation W
  = (Ok tt,
     mkWorld
       (mkComposition (molecules (self W)) (segmentation_type (self W)) (length (store W))
          (cached_absorption (self W)) (cached_scattering (self W)))
       (store W ++ [aggregate calculate_oxygenation (self W)])
       (spectrum_lookups W)).
Proof.
  unfold update_internal_properties.
  m_unfold. cbn [self store spectrum_lookups molecules internal_properties].
  rewrite for_each_accumulate.
  cbn [self store spectrum_lookups molecules internal_properties].
  rewrite !list_alter_alter_eq.
  assert (Halter : forall f : TissueProperties -> TissueProperties,
             alter f (length (store W)) (store W ++ [TissueProperties_new])
             = store W ++ [f TissueProperties_new]).
  { intros f. rewrite <- (Nat.add_0_r (length (store W))).
    by rewrite alter_app_r. }
  rewrite Halter, list_lookup_total_middle by done.
  unfold aggregate, renormalise. cbn [compose].
  destruct (float_lt 1 _); [|done].
  cbn [self store spectrum_lookups internal_properties].
  rewrite <- (Nat.add_0_r (length (store W))) at 2. by rewrite alter_app_r.
Qed.

Lemma accumulate_all_keeps (ms : list Molecule) (p : TissueProperties) :
  tp_absorption (accumulate_all ms p) = tp_absorption p
  /\ tp_scattering (accumulate_all ms p) = tp_scattering p
  /\ tp_segmentation (accumulate_all ms p) = tp_segmentation p
  /\ tp_oxygenation (accumulate_all ms p) = tp_oxygenation p.
Proof.
  revert p. induction ms as [|m ms IH]; intros p; [done|].
  cbn [accumulate_all foldl]. fold (accumulate_all ms (accumulate m p)).
  destruct (IH (accumulate m p)) as (-> & -> & -> & ->). done.
Qed.

Lemma aggregate_keeps (c : MolecularComposition) :
  tp_absorption (aggregate calculate_oxygenation c) = 0
  /\ tp_scattering (aggregate calculate_oxygenation c) = 0
  /\ tp_segmentation (aggregate calculate_oxygenation c) = segmentation_type c
  /\ tp_oxygenation (aggregate calculate_oxygenation c) = calculate_oxygenation (molecules c).
Proof.
  unfold aggregate, renormalise.
  destruct (accumulate_all_keeps (molecules c)
              (set_oxygenation (calculate_oxygenation (molecules c))
                 (set_segmentation (segmentation_type c) TissueProperties_new)))
    as (Ha & Hs & Hg & Ho).
  destruct (float_lt 1 _); cbn [set_anisotropy tp_absorption tp_scattering tp_segmentation
                                 tp_oxygenation]; by rewrite Ha, Hs, Hg, Ho.
Qed.

(** X13. [update_internal_properties] never raises and never writes to
    an existing object: it allocates a new record and points
    [self.internal_properties] at it, so every object that existed, the
    previous record included, is left as it was. The new record carries
    the segmentation type of [self] and the oxygenation computed from the
    molecules, and its absorption and scattering are 0. The molecules and
    the two cache arrays are kept. *)
Theorem update_allocates_a_fresh_record (W : World) :
  exists W',
    update_internal_properties calculate_oxygenation W = (Ok tt, W')
    /\ internal_properties (self W') = length (store W)
    /\ length (store W') = S (length (store W))
    /\ (forall (l : loc) (p : TissueProperties),
          store W !! l = Some p -> store W' !! l = Some p)
    /\ molecules (self W') = molecules (self W)
    /\ cached_absorption (self W') = cached_absorption (self W)
    /\ cached_scattering (self W') = cached_scattering (self W)
    /\ let p := store W' !!! internal_properties (self W') in
       tp_absorption p = 0
       /\ tp_scattering p = 0
       /\ tp_segmentation p = segmentation_type (self W)
       /\ tp_oxygenation p = calculate_oxygenation (molecules (self W)).
Proof.
  eexists. split; [apply update_internal_properties_result|].
  cbn [self store internal_properties molecules cached_absorption cached_scattering].
  split; [done|]. split; [rewrite length_app; simpl; lia|].
  split; [intros l p Hl; by apply lookup_app_l_Some|].
  do 3 (split; [done|]).
  rewrite list_lookup_total_middle by done. apply aggregate_keeps.
Qed.

(** X14. Rebuilding the record twice does not double anything: the
    second call of [update_internal_properties] allocates another record
    that equals the one the first call built, entry by entry. *)
Theorem update_twice_builds_equal_records (W W1 W2 : World) :
  update_internal_properties calculate_oxygenation W = (Ok tt, W1) ->
  update_internal_properties calculate_oxygenation W1 = (Ok tt, W2) ->
  internal_properties (self W2) = S (internal_properties (self W1))
  /\ store W2 !!! internal_properties (self W2)
     = store W1 !!! internal_properties (self W1).
Proof.
  rewrite !update_internal_properties_result. intros [= <-] [= <-].
  cbn [self store internal_properties]. split.
  - rewrite length_app. simpl. lia.
  - rewrite !list_lookup_total_middle by done. reflexivity.
Qed.

(** X15. A reference that [get_properties_for_wavelength] returned
    before [update_internal_properties] ran points to the previous
    record: calls made after the update, whether they return or raise,
    no longer change what that reference shows. *)
Theorem update_detaches_earlier_references (w w' : Z) (W : World) (r : loc)
    (W1 W2 : World) (res : result loc) (W3 : World) :
  (internal_properties (self W) < length (store W))%nat ->
  get_properties_for_wavelength fpow w W = (Ok r, W1) ->
  update_internal_properties calculate_oxygenation W1 = (Ok tt, W2) ->
  get_properties_for_wavelength fpow w' W2 = (res, W3) ->
  r <> internal_properties (self W2)
  /\ store W3 !! r = store W1 !! r.
Proof.
  intros Hwf Hcall. rewrite update_internal_properties_result. intros [= <-] Hcall'.
  destruct (get_properties_returns fpow w W r W1 Hcall) as (-> & _ & _ & Hlen & _).
  apply call_optical in Hcall' as (_ & _ & _ & _ & Hother & _).
  cbn [self store internal_properties] in *.
  assert (Hne : internal_properties (self W) <> length (store W1)) by lia.
  split; [done|].
  rewrite Hother by done. apply lookup_app_l. lia.
Qed.

End UpdateFacts.

Section UpdateExamples.

Local Open Scope Q_scope.

Lemma update_twice_builds_equal_records_witness :
  let oxy := fun _ : list Molecule => @None Q in
  let W := single_molecule_world (plain_molecule ramp_spectrum (1 # 2)) in
  let W1 := (update_internal_properties oxy W).2 in
  let W2 := (update_internal_properties oxy W1).2 in
  (update_internal_properties oxy W = (Ok tt, W1)
   /\ update_internal_properties oxy W1 = (Ok tt, W2))
  /\ (internal_properties (self W2) = S (internal_properties (self W1))
      /\ store W2 !!! internal_properties (self W2)
         = store W1 !!! internal_properties (self W1)).
Proof.
  intros oxy W W1 W2.
  assert (H1 : update_internal_properties oxy W = (Ok tt, W1))
    by (vm_compute; reflexivity).
  assert (H2 : update_internal_properties oxy W1 = (Ok tt, W2))
    by (vm_compute; reflexivity).
  split; [exact (conj H1 H2)|].
  exact (update_twice_builds_equal_records oxy W W1 W2 H1 H2).
Defined.

Lemma update_detaches_earlier_references_witness :
  let oxy := fun _ : list Molecule => @None Q in
  let W := single_molecule_world (plain_molecule ramp_spectrum (1 # 2)) in
  let W1 := (get_properties_for_wavelength unit_pow 900 W).2 in
  let W2 := (update_internal_properties oxy W1).2 in
  let W3 := (get_properties_for_wavelength unit_pow 1000 W2).2 in
  ((internal_properties (self W) < length (store W))%nat
   /\ get_properties_for_wavelength unit_pow 900 W = (Ok 0%nat, W1)
   /\ update_internal_properties oxy W1 = (Ok tt, W2)
   /\ get_properties_for_wavelength unit_pow 1000 W2 = (Ok 1%nat, W3))
  /\ (0%nat <> internal_properties (self W2)
      /\ store W3 !! 0%nat = store W1 !! 0%nat).
Proof.
  intros oxy W W1 W2 W3.
  assert (H1 : (internal_properties (self W) < length (store W))%nat)
    by (vm_compute; lia).
  assert (H2 : get_properties_for_wavelength unit_pow 900 W = (Ok 0%nat, W1))
    by (vm_compute; reflexivity).
  assert (H3 : update_internal_properties oxy W1 = (Ok tt, W2))
    by (vm_compute; reflexivity).
  assert (H4 : get_properties_for_wavelength unit_pow 1000 W2 = (Ok 1%nat, W3))
    by (vm_compute; reflexivity).
  split; [exact (conj H1 (conj H2 (conj H3 H4)))|].
  exact (update_detaches_earlier_references unit_pow oxy 900 1000 W 0%nat W1 W2
           (Ok 1%nat) W3 H1 H2 H3 H4).
Defined.

End UpdateExamples.

(** ** The molecule library *)

Section LibraryMolecules.

Local Open Scope Q_scope.

(** X16. [water(volume_fraction)] returns a molecule exactly when the
    argument is a float or [None], and raises the [TypeError] of the
    volume fraction otherwise (an int such as [1] included). The molecule
    carries the water spectrum, anisotropy 1 and the volume fraction that
    was passed ([None] gives 0, not the default 1 of the signature), and
    its scattering term is 0 at every wavelength: water never adds to the
    scattering of a composition. *)
Theorem water_absorbs_and_never_scatters (WATER : AbsorptionSpectrum) (v : pyarg) :
  match water WATER v with
  | Ok m =>
      unset_or_float v = true
      /\ spectrum m = WATER
      /\ volume_fraction m = float_or 0 v
      /\ anisotropy m = 1
      /\ forall (fpow : Q -> Q -> Q) (w : Z), scattering_term fpow m w == 0
  | Raise e =>
      unset_or_float v = false
      /\ e = TypeError "The given volume_fraction was not of type float!"
  end.
Proof.
  destruct v; cbn; try done.
  all: repeat split; intros fpow w; unfold scattering_term; cbn; ring.
Qed.

(** X17. The scattering of [constant_scatterer(scattering_coefficient,
    anisotropy, volume_fraction)] does not depend on the wavelength: with
    [x ** 0 = 1], its scattering term is
    [volume_fraction * scattering_coefficient] at every wavelength. *)
Theorem constant_scatterer_is_wavelength_independent (fpow : Q -> Q -> Q)
    (scattering_coefficient anisotropy volume_fraction : Q) :
  (forall x : Q, fpow x 0 == 1) ->
  exists m,
    constant_scatterer (PyFloat scattering_coefficient) (PyFloat anisotropy)
      (PyFloat volume_fraction) = Ok m
    /\ spectrum m = CONSTANT_ABSORBER_ZERO
    /\ forall w : Z, scattering_term fpow m w == volume_fraction * scattering_coefficient.
Proof.
  intros Hpow. eexists. split; [reflexivity|]. split; [reflexivity|].
  intros w. unfold scattering_term. cbn [Molecules.volume_fraction mus500 f_ray b_mie].
  change (- 0) with 0. rewrite Hpow. ring.
Qed.

Lemma constant_scatterer_is_wavelength_independent_witness :
  (forall x : Q, unit_pow x 0 == 1)
  /\ exists m,
       constant_scatterer (PyFloat 100) (PyFloat (9 # 10)) (PyFloat 1) = Ok m
       /\ spectrum m = CONSTANT_ABSORBER_ZERO
       /\ forall w : Z, scattering_term unit_pow m w == 1 * 100.
Proof.
  assert (H : forall x : Q, unit_pow x 0 == 1) by (intros x; reflexivity).
  split; [exact H|].
  exact (constant_scatterer_is_wavelength_independent unit_pow 100 (9 # 10) 1 H).
Defined.

End LibraryMolecules.

(** ** More on the compositor *)

Section VesselTags.

Variables ARTERY VEIN RANDOM_ARTERY RANDOM_VEIN : Q.

Lemma prefix_app_l (a b s : string) :
  String.prefix (String.append a b) s = true -> String.prefix a s = true.
Proof.
  revert s. induction a as [|c a IH]; intros s; [by destruct s|].
  destruct s as [|d s]; cbn; [done|]. destruct (Ascii.ascii_dec c d); [apply IH|done].
Qed.

Lemma contains_of_prefix (b s : string) :
  String.prefix b s = true -> contains b s = true.
Proof. intros H. destruct s; cbn [contains]; by rewrite H. Qed.

Lemma contains_tail (b : string) (d : Ascii.ascii) (s : string) :
  contains b s = true -> contains b (String d s) = true.
Proof. intros H. cbn [contains]. rewrite H. apply orb_true_r. Qed.

Lemma prefix_app_r (a b s : string) :
  String.prefix (String.append a b) s = true -> contains b s = true.
Proof.
  revert s. induction a as [|c a IH]; intros s; [apply contains_of_prefix|].
  destruct s as [|d s]; cbn [String.append String.prefix]; [done|].
  destruct (Ascii.ascii_dec c d); [|done]. intros H. apply contains_tail. by apply IH.
Qed.

Lemma contains_app_l (a b s : string) :
  contains (String.append a b) s = true -> contains a s = true.
Proof.
  induction s as [|d s IH]; cbn [contains].
  - rewrite !orb_false_r. apply prefix_app_l.
  - intros [H|H]%orb_true_iff.
    + apply prefix_app_l in H. by rewrite H.
    + rewrite (IH H). apply orb_true_r.
Qed.

Lemma contains_app_r (a b s : string) :
  contains (String.append a b) s = true -> contains b s = true.
Proof.
  induction s as [|d s IH]; cbn [contains].
  - rewrite orb_false_r. apply prefix_app_r.
  - intros [H|H]%orb_true_iff.
    + by apply prefix_app_r in H.
    + apply contains_tail. by apply IH.
Qed.

Lemma random_artery_is_random (s : string) :
  contains "random_artery" s = true -> contains "random" s = true.
Proof. apply (contains_app_l "random" "_artery"). Qed.

Lemma random_vein_is_random (s : string) :
  contains "random_vein" s = true -> contains "random" s = true.
Proof. apply (contains_app_l "random" "_vein"). Qed.

(** X18. The vessel override for a structure whose sixth parameter is a
    string. A tag without "random" in it gives the label [ARTERY] when it
    contains "artery" (also when it contains "vein" as well), else [VEIN]
    when it contains "vein". A tag with "random" in it gives
    [RANDOM_ARTERY] when it contains "random_artery", else [RANDOM_VEIN]
    when it contains "random_vein". In every other case, and in every
    entry but the segmentation, the properties stay as they are. *)
Theorem vessel_tag_decides_the_label (structure : Structure) (props : TissueProperties)
    (tag : string) :
  params structure !! 5%nat = Some (ParamStr tag) ->
  vessel_override ARTERY VEIN RANDOM_ARTERY RANDOM_VEIN structure props
  = if contains "random" tag then
      if contains "random_artery" tag then set_segmentation (Some RANDOM_ARTERY) props
      else if contains "random_vein" tag then set_segmentation (Some RANDOM_VEIN) props
      else props
    else if contains "artery" tag then set_segmentation (Some ARTERY) props
    else if contains "vein" tag then set_segmentation (Some VEIN) props
    else props.
Proof.
  intros Htag. unfold vessel_override. rewrite Htag. cbn [param_contains].
  pose proof (random_artery_is_random tag) as Hra.
  pose proof (random_vein_is_random tag) as Hrv.
  destruct (contains "random" tag), (contains "artery" tag), (contains "vein" tag),
    (contains "random_artery" tag), (contains "random_vein" tag); cbn; try done.
  all: try (by discriminate Hra). all: by discriminate Hrv.
Qed.

End VesselTags.

Lemma vessel_tag_decides_the_label_witness :
  params (tagged_structure "random_artery_3") !! 5%nat = Some (ParamStr "random_artery_3")
  /\ vessel_override 4 5 6 7 (tagged_structure "random_artery_3") (labelled 0)
     = set_segmentation (Some 6%Q) (labelled 0).
Proof.
  assert (H : params (tagged_structure "random_artery_3") !! 5%nat
              = Some (ParamStr "random_artery_3")) by reflexivity.
  split; [exact H|].
  exact (vessel_tag_decides_the_label 4 5 6 7 (tagged_structure "random_artery_3")
           (labelled 0) "random_artery_3" H).
Defined.

Section PassMore.

Local Open Scope Q_scope.

Variables ARTERY VEIN RANDOM_ARTERY RANDOM_VEIN : Q.
Variable settings : Settings.

Local Abbreviation process_structure :=
  (process_structure ARTERY VEIN RANDOM_ARTERY RANDOM_VEIN settings).
Local Abbreviation process_structures :=
  (process_structures ARTERY VEIN RANDOM_ARTERY RANDOM_VEIN settings).
Local Abbreviation create_simulation_volume :=
  (create_simulation_volume ARTERY VEIN RANDOM_ARTERY RANDOM_VEIN settings).
Local Abbreviation state_after :=
  (state_after ARTERY VEIN RANDOM_ARTERY RANDOM_VEIN settings).
Local Abbreviation effective_properties := (fun structure =>
  vessel_override ARTERY VEIN RANDOM_ARTERY RANDOM_VEIN structure
    (properties_for_wavelength structure (WAVELENGTH settings))).
Local Abbreviation grid_size := (grid_size settings).
Local Abbreviation well_shaped := (well_shaped settings).
Local Abbreviation y_index :=
  (py_int ((DIM_VOLUME_Y_MM settings / 2) / SPACING_MM settings)).

(** What a turn of the loop that returns has done. *)
Lemma process_structure_Ok (st : State) (structure : Structure) (st' : State) :
  process_structure st structure = Ok st' ->
  let g := global_volume_fractions st in
  let s := geometrical_volume structure in
  length s = grid_size
  /\ (n st < length (structures_filling st))%nat
  /\ (exists j, np_index (y_dim_px settings) y_index = Ok j
        /\ structures_filling st'
           = <[n st := audit_plane settings (added_volume_fraction g s) j]>
               (structures_filling st))
  /\ global_volume_fractions st'
     = masked_assign g (eligible_mask g s) (add g (added_volume_fraction g s))
  /\ (volumes st', max_added_fractions st')
     = foldl (update_volume (effective_properties structure)
                (added_volume_fraction g s) (eligible_mask g s))
         ([], max_added_fractions st) (volumes st)
  /\ n st' = S (n st).
Proof.
  unfold Compositor.process_structure.
  destruct (length (geometrical_volume structure) =? grid_size)%nat eqn:Hlen;
    cbn [negb]; [|done].
  apply Nat.eqb_eq in Hlen. unfold slice_y, set_plane.
  destruct (np_index (y_dim_px settings) y_index) as [j|] eqn:Hy;
    cbn [mbind result_bind]; [|done].
  destruct (n st <? length (structures_filling st))%nat eqn:Hn;
    cbn [mbind result_bind]; [|done].
  apply Nat.ltb_lt in Hn.
  destruct (foldl _ _ _) as [vols mx]. intros [= <-]. cbn.
  split; [done|]. split; [done|]. split; [by exists j|]. done.
Qed.

(** The loop over the keys keeps the keys in order and treats every
    entry on its own. *)
Lemma foldl_update_volume (P : list Q -> Prop) (R : Key * list Q -> Key * list Q -> Prop)
    (props : TissueProperties) (added : list Q) (m : list bool) :
  (forall done mx e, P mx ->
     exists e' mx', update_volume props added m (done, mx) e = (done ++ [e'], mx')
                    /\ R e e' /\ P mx') ->
  forall vols done mx, P mx ->
    exists rest mx', foldl (update_volume props added m) (done, mx) vols = (done ++ rest, mx')
                     /\ Forall2 R vols rest /\ P mx'.
Proof.
  intros Hstep. induction vols as [|e vols IH]; intros done mx HP.
  - exists [], mx. rewrite app_nil_r. by repeat split.
  - destruct (Hstep done mx e HP) as (e' & mx1 & Hupd & HR & HP1).
    destruct (IH (done ++ [e']) mx1 HP1) as (rest & mx' & Hfold & Hall & HP').
    exists (e' :: rest), mx'. cbn [foldl]. rewrite Hupd, Hfold, <- app_assoc.
    split; [done|]. split; [by constructor|done].
Qed.

Lemma masked_assign_outside (a : list Q) (m : list bool) (b : list Q) (i : nat) :
  m !! i = Some false -> (forall x, a !! i = Some x -> is_Some (b !! i)) ->
  masked_assign a m b !! i = a !! i.
Proof.
  intros Hm Hb. destruct (a !! i) as [x|] eqn:Ha.
  - destruct (Hb x eq_refl) as [y' Hy]. by rewrite (masked_assign_lookup a m b i x false y').
  - unfold masked_assign. by rewrite !lookup_zip_with, Ha.
Qed.

Lemma masked_fill_outside (a : list Q) (m : list bool) (v : Q) (i : nat) :
  m !! i = Some false -> masked_fill a m v !! i = a !! i.
Proof.
  intros Hm. unfold masked_fill. rewrite lookup_zip_with, Hm. by destruct (a !! i).
Qed.

Lemma weighted_lookup (volume added : list Q) (value : Q) (i : nat) (x a : Q) :
  volume !! i = Some x -> added !! i = Some a ->
  add volume (mul_scalar added value) !! i = Some (x + a * value).
Proof.
  intros Hx Ha. unfold add, mul_scalar. by rewrite lookup_zip_with, list_lookup_fmap, Hx, Ha.
Qed.

(** One turn of the loop over the keys at a voxel outside the mask. *)
Lemma update_volume_outside (props : TissueProperties) (added : list Q) (m : list bool)
    (i : nat) (a mi : Q) (done : list (Key * list Q)) (mx : list Q) (e : Key * list Q) :
  m !! i = Some false -> added !! i = Some a -> mx !! i = Some mi ->
  exists e' mx', update_volume props added m (done, mx) e = (done ++ [e'], mx')
                 /\ same_at i e e' /\ mx' !! i = Some mi.
Proof.
  intros Hm Ha Hmx. destruct e as [key volume]. unfold update_volume.
  destruct (getitem props key) as [value|] eqn:Hvalue.
  2: { eexists _, _. split; [done|]. by repeat split. }
  assert (Hgreater : mask_and (gt_tensor added mx) m !! i = Some false).
  { unfold mask_and, gt_tensor. rewrite !lookup_zip_with, Ha, Hmx, Hm. cbn.
    by rewrite andb_false_r. }
  assert (Hplain : masked_assign volume m (add volume (mul_scalar added value)) !! i
                   = volume !! i).
  { apply masked_assign_outside; [done|].
    intros x Hx. rewrite (weighted_lookup _ _ _ _ x a) by done. by eexists. }
  assert (Hseg : masked_fill volume (mask_and (gt_tensor added mx) m) value !! i
                 = volume !! i) by (by apply masked_fill_outside).
  assert (Hmx' : masked_assign mx (mask_and (gt_tensor added mx) m) added !! i = Some mi)
    by (by rewrite (masked_assign_lookup mx _ added i mi false a)).
  destruct key; eexists _, _; (split; [reflexivity|]); by repeat split.
Qed.

(** One turn of the loop over the keys at a voxel of the mask. *)
Lemma update_volume_inside (props : TissueProperties) (added : list Q) (m : list bool)
    (i : nat) (a : Q) (done : list (Key * list Q)) (mx : list Q) (e : Key * list Q) :
  m !! i = Some true -> added !! i = Some a ->
  exists e' mx', update_volume props added m (done, mx) e = (done ++ [e'], mx')
                 /\ gains_at props a i e e' /\ True.
Proof.
  intros Hm Ha. destruct e as [key volume]. unfold update_volume, gains_at.
  destruct (getitem props key) as [value|] eqn:Hvalue.
  - assert (Hplain : forall x, volume !! i = Some x ->
              masked_assign volume m (add volume (mul_scalar added value)) !! i
              = Some (x + a * value)).
    { intros x Hx. rewrite (masked_assign_lookup volume m _ i x true (x + a * value)); try done.
      by apply weighted_lookup. }
    destruct key; eexists _, _; (split; [reflexivity|]); (split; [|done]);
      (split; [done|]); cbn [fst snd]; rewrite ?Hvalue; done.
  - eexists _, _. split; [reflexivity|]. split; [|done]. split; [done|].
    cbn [fst snd]. destruct key; try done; by rewrite Hvalue.
Qed.

(** X19. A voxel outside the mask is left alone. When the structure has
    no occupancy at a voxel ([s <= 0]) or the voxel is already full
    ([1 <= g]), a turn of the loop over the structures changes nothing
    there: the global occupancy, the largest added fraction and the value
    of every volume at that voxel, the segmentation included, are what
    they were, and the volumes keep their keys in order. *)
Theorem voxel_outside_the_mask_is_left_alone (st : State) (structure : Structure)
    (st' : State) (i : nat) (gi si mi : Q) :
  process_structure st structure = Ok st' ->
  global_volume_fractions st !! i = Some gi ->
  geometrical_volume structure !! i = Some si ->
  max_added_fractions st !! i = Some mi ->
  si <= 0 \/ 1 <= gi ->
  global_volume_fractions st' !! i = Some gi
  /\ max_added_fractions st' !! i = Some mi
  /\ Forall2 (same_at i) (volumes st) (volumes st').
Proof.
  intros Hturn Hg Hs Hmx Hout.
  apply process_structure_Ok in Hturn as (_ & _ & _ & Hglobal & Hvols & _).
  apply eligible_at_false in Hout.
  pose proof (eligible_mask_lookup _ _ i gi si Hg Hs) as Hmask. rewrite Hout in Hmask.
  pose proof (added_volume_fraction_lookup _ _ i gi si Hg Hs) as Hadded.
  split.
  - rewrite Hglobal, (global_update_lookup _ _ i gi si) by done.
    unfold global_at. by rewrite Hout.
  - destruct (foldl_update_volume (fun mx => mx !! i = Some mi) (same_at i)
                (effective_properties structure) _ _
                (fun done mx e Hmi =>
                   update_volume_outside _ _ _ i _ mi done mx e Hmask Hadded Hmi)
                (volumes st) [] (max_added_fractions st) Hmx)
      as (rest & mx' & Hfold & Hall & Hmx').
    rewrite Hfold in Hvols. cbn [app] in Hvols. injection Hvols as -> ->. done.
Qed.

(** X20. A voxel of the mask takes its share. When the structure has
    occupancy [0 < s <= 1] at a voxel whose global occupancy is
    [0 <= g < 1], the added fraction there is the smaller of [s] and the
    room [1 - g] that is left; the global occupancy grows by it; and every
    volume other than the segmentation whose property the structure
    defines grows by the added fraction times that property, while a
    volume whose property is [None] is kept as it is. *)
Theorem voxel_in_the_mask_takes_its_share (st : State) (structure : Structure)
    (st' : State) (i : nat) (gi si : Q) :
  process_structure st structure = Ok st' ->
  global_volume_fractions st !! i = Some gi ->
  geometrical_volume structure !! i = Some si ->
  0 <= gi -> gi < 1 -> 0 < si -> si <= 1 ->
  let a := added_at gi si in
  a == (if Qle_bool si (1 - gi) then si else 1 - gi)
  /\ global_volume_fractions st' !! i = Some (gi + a)
  /\ Forall2 (gains_at (effective_properties structure) a i) (volumes st) (volumes st').
Proof.
  intros Hturn Hg Hs Hg0 Hg1 Hs0 Hs1 a.
  apply process_structure_Ok in Hturn as (_ & _ & _ & Hglobal & Hvols & _).
  assert (Hin : eligible_at gi si = true) by (by apply eligible_at_true).
  pose proof (eligible_mask_lookup _ _ i gi si Hg Hs) as Hmask. rewrite Hin in Hmask.
  pose proof (added_volume_fraction_lookup _ _ i gi si Hg Hs) as Hadded.
  split; [|split].
  - unfold a. rewrite added_at_eligible by done.
    destruct (Qle_bool si (1 - gi)) eqn:Hroom.
    + apply Qle_bool_iff in Hroom.
      assert (Qle_bool (gi + si) 1 = true) as -> by (apply Qle_bool_iff; lra).
      reflexivity.
    + apply not_true_iff_false in Hroom. rewrite Qle_bool_iff in Hroom.
      assert (Qle_bool (gi + si) 1 = false) as ->
        by (apply not_true_iff_false; rewrite Qle_bool_iff; lra).
      assert (float_lt 1 (gi + si) = true) as -> by (apply float_lt_true; lra).
      assert (Qle_bool (1 - gi) si = true) as -> by (apply Qle_bool_iff; lra).
      reflexivity.
  - rewrite Hglobal, (global_update_lookup _ _ i gi si) by done.
    unfold global_at. by rewrite Hin.
  - destruct (foldl_update_volume (fun _ => True) (gains_at (effective_properties structure) a i)
                (effective_properties structure) _ _
                (fun done mx e _ =>
                   update_volume_inside _ _ _ i a done mx e Hmask Hadded)
                (volumes st) [] (max_added_fractions st) I)
      as (rest & mx' & Hfold & Hall & _).
    rewrite Hfold in Hvols. cbn [app] in Hvols. injection Hvols as Hv _. by rewrite Hv.
Qed.

(** *** The whole pass at one voxel *)

(** Line 119 at one voxel: the occupancy is added and capped at 1. *)
Lemma global_at_capped (g s : Q) :
  in_unit_interval g -> in_unit_interval s ->
  (g + s <= 1 -> global_at g s == g + s) /\ (1 <= g + s -> global_at g s == 1).
Proof.
  unfold in_unit_interval. intros [Hg0 Hg1] [Hs0 Hs1]. unfold global_at.
  destruct (eligible_at g s) eqn:He.
  - rewrite added_at_eligible by done. apply eligible_at_true in He as [Hs Hg].
    destruct (Qle_bool (g + s) 1) eqn:Hle.
    + apply Qle_bool_iff in Hle. split; intros; lra.
    + apply not_true_iff_false in Hle. rewrite Qle_bool_iff in Hle.
      assert (float_lt 1 (g + s) = true) as -> by (apply float_lt_true; lra).
      assert (Qle_bool (1 - g) s = true) as -> by (apply Qle_bool_iff; lra).
      split; intros; lra.
  - apply eligible_at_false in He. split; intros; lra.
Qed.

Lemma occupancy_sum_nonneg (i : nat) (structures : list Structure) :
  Forall well_shaped structures -> (i < grid_size)%nat ->
  0 <= occupancy_sum i structures.
Proof.
  intros Hall Hi. induction Hall as [|s rest [Hlen Hocc] _ IH]; cbn [occupancy_sum foldr].
  - lra.
  - fold (occupancy_sum i rest).
    destruct (lookup_lt_is_Some_2 (geometrical_volume s) i) as [si Hsi]; [lia|].
    rewrite (list_lookup_total_correct _ _ _ Hsi).
    destruct (Forall_lookup_1 _ _ _ _ Hocc Hsi). lra.
Qed.

Lemma process_structures_capped (structures : list Structure) (st : State)
    (j i : nat) (gi : Q) :
  np_index (y_dim_px settings) y_index = Ok j ->
  Forall well_shaped structures ->
  (n st + length structures <= length (structures_filling st))%nat ->
  length (global_volume_fractions st) = grid_size ->
  Forall in_unit_interval (global_volume_fractions st) ->
  global_volume_fractions st !! i = Some gi ->
  exists st' g',
    process_structures st structures = Ok st'
    /\ global_volume_fractions st' !! i = Some g'
    /\ (gi + occupancy_sum i structures <= 1 -> g' == gi + occupancy_sum i structures)
    /\ (1 <= gi + occupancy_sum i structures -> g' == 1).
Proof.
  intros Hy. revert st gi.
  induction structures as [|structure rest IH]; intros st gi Hall Hn Hg Hunit Hgi.
  - exists st, gi. destruct (Forall_lookup_1 _ _ _ _ Hunit Hgi).
    cbn [occupancy_sum foldr]. repeat split; try done; intros; lra.
  - apply Forall_cons in Hall as [Hs Hrest]. cbn [length] in Hn.
    assert (Hi : (i < grid_size)%nat) by (apply lookup_lt_Some in Hgi; lia).
    pose proof (occupancy_sum_nonneg i rest Hrest Hi) as Hnonneg.
    destruct (process_structure_unit_interval ARTERY VEIN RANDOM_ARTERY RANDOM_VEIN settings
                st structure j Hy Hs) as (st1 & Hst1 & Hn1 & Hfilling1 & Hg1 & Hunit1);
      [lia|done|done|].
    destruct Hs as [Hlen Hocc].
    destruct (process_structure_returns ARTERY VEIN RANDOM_ARTERY RANDOM_VEIN settings
                st structure j Hlen Hy) as (st1' & Hst1' & Hglobal & _); [lia|].
    rewrite Hst1 in Hst1'. injection Hst1' as <-.
    destruct (lookup_lt_is_Some_2 (geometrical_volume structure) i) as [si Hsi]; [lia|].
    assert (Hg1i : global_volume_fractions st1 !! i = Some (global_at gi si))
      by (rewrite Hglobal; by apply global_update_lookup).
    destruct (IH st1 (global_at gi si) Hrest) as (st' & g' & Hst' & Hg' & Hle & Hge);
      [lia|done|done|done|].
    exists st', g'. split; [cbn [Compositor.process_structures]; by rewrite Hst1|].
    split; [done|].
    cbn [occupancy_sum foldr]. fold (occupancy_sum i rest).
    rewrite (list_lookup_total_correct _ _ _ Hsi).
    pose proof (Forall_lookup_1 _ _ _ _ Hunit Hgi) as Hgi_unit.
    pose proof (Forall_lookup_1 _ _ _ _ Hocc Hsi) as Hsi_unit.
    destruct (global_at_capped gi si Hgi_unit Hsi_unit) as [Hcap_le Hcap_ge].
    destruct Hgi_unit as [Hgi0 Hgi1], Hsi_unit as [Hsi0 Hsi1].
    split; intros Hsum.
    + assert (Hcap : global_at gi si == gi + si) by (apply Hcap_le; lra).
      rewrite Hle; lra.
    + destruct (Qlt_le_dec 1 (gi + si)) as [Hover|Hunder].
      * assert (Hcap : global_at gi si == 1) by (apply Hcap_ge; lra). apply Hge. lra.
      * assert (Hcap : global_at gi si == gi + si) by (by apply Hcap_le). apply Hge. lra.
Qed.

(** X21. When every structure's occupancy array has the shape of the
    grid and values in [0, 1] (and the audit plane exists), the pass
    returns, and the global occupancy it leaves at a voxel is the sum of
    the occupancies of all the structures at that voxel, capped at 1: the
    sum itself while it does not exceed 1, and 1 from there on. *)
Theorem global_occupancy_is_the_capped_sum (structures : list Structure) (j i : nat) :
  np_index (y_dim_px settings) y_index = Ok j ->
  Forall well_shaped structures ->
  (i < grid_size)%nat ->
  exists st g,
    create_simulation_volume structures = Ok st
    /\ global_volume_fractions st !! i = Some g
    /\ (occupancy_sum i structures <= 1 -> g == occupancy_sum i structures)
    /\ (1 <= occupancy_sum i structures -> g == 1).
Proof.
  intros Hy Hall Hi.
  destruct (initial_state_unit_interval settings (length structures)) as [H0 H1].
  destruct (process_structures_capped structures
              (initial_state settings (length structures)) j i 0 Hy Hall)
    as (st & g & Hst & Hg & Hle & Hge); try done.
  - cbn [n initial_state structures_filling]. rewrite length_replicate. lia.
  - cbn [initial_state global_volume_fractions]. unfold zeros.
    by apply lookup_replicate_2.
  - exists st, g. split; [done|]. split; [done|].
    split; intros Hsum; [rewrite Hle; lra|apply Hge; lra].
Qed.

(** *** The audit planes *)

Lemma process_structures_app (st : State) (l1 l2 : list Structure) :
  process_structures st (l1 ++ l2)
  = process_structures st l1 ≫= fun st1 => process_structures st1 l2.
Proof.
  revert st. induction l1 as [|s l1 IH]; intros st; [done|].
  cbn [app Compositor.process_structures].
  destruct (process_structure st s) as [st1|e]; cbn [mbind result_bind]; [apply IH|done].
Qed.

(** The counter [n] counts the structures, and a turn writes no plane
    below the counter. *)
Lemma process_structures_counter (structures : list Structure) (st st' : State) :
  process_structures st structures = Ok st' ->
  n st' = (n st + length structures)%nat
  /\ forall k : nat, (k < n st)%nat ->
       structures_filling st' !! k = structures_filling st !! k.
Proof.
  revert st. induction structures as [|s rest IH]; intros st.
  - intros [= <-]. cbn [length]. split; [lia|done].
  - cbn [Compositor.process_structures].
    destruct (process_structure st s) as [st1|e] eqn:Hturn; cbn [mbind result_bind]; [|done].
    intros Hrest. apply IH in Hrest as [Hn Hkeep].
    apply process_structure_Ok in Hturn as (_ & _ & (j & _ & Hfilling) & _ & _ & Hn1).
    cbn [length]. split; [lia|].
    intros k Hk. rewrite Hkeep by lia. rewrite Hfilling.
    apply list_lookup_insert_ne. lia.
Qed.

(** X22. Every structure writes the audit plane of its own number and no
    other. When the pass returns, plane [k] of [structures_filling] is
    the row [added_volume_fraction[:, j, :]] of the added fraction that
    the [k]-th structure was given, computed from the global occupancy
    that the first [k] structures had left; no later structure overwrote
    it. *)
Theorem each_structure_fills_its_own_plane (structures : list Structure) (k : nat)
    (structure : Structure) (stk st : State) :
  create_simulation_volume structures = Ok st ->
  structures !! k = Some structure ->
  state_after k structures = Ok stk ->
  exists j,
    np_index (y_dim_px settings) y_index = Ok j
    /\ n stk = k
    /\ structures_filling st !! k
       = Some (audit_plane settings
                 (added_volume_fraction (global_volume_fractions stk)
                    (geometrical_volume structure)) j).
Proof.
  unfold Compositor.create_simulation_volume, Compositor.state_after.
  remember (initial_state settings (length structures)) as st0 eqn:Hst0.
  intros Hpass Hk Hprefix.
  assert (Hn0 : n st0 = 0%nat) by (by rewrite Hst0).
  rewrite <- (take_drop_middle structures k structure Hk), process_structures_app in Hpass.
  rewrite Hprefix in Hpass. cbn [mbind result_bind Compositor.process_structures] in Hpass.
  destruct (process_structure stk structure) as [st1|e] eqn:Hturn;
    cbn [mbind result_bind] in Hpass; [|done].
  apply process_structures_counter in Hprefix as [Hnk _].
  apply process_structures_counter in Hpass as [_ Hkeep].
  apply process_structure_Ok in Hturn as (_ & Hroom & (j & Hy & Hfilling) & _ & _ & Hn1).
  assert (Hstk : n stk = k).
  { rewrite Hnk, Hn0, length_take. apply lookup_lt_Some in Hk. lia. }
  exists j. split; [done|]. split; [done|].
  rewrite Hkeep by lia. rewrite Hfilling, Hstk.
  apply list_lookup_insert_eq. lia.
Qed.

(** *** The segmentation label *)

(** X23. The rule of the segmentation volume, for volumes with the keys
    of [create_empty_volumes] and a structure that has a label. At a
    voxel the label is replaced by the structure's label exactly when the
    voxel is in the mask and the added fraction is strictly larger than
    the largest added fraction so far, which then becomes the added
    fraction; on a tie or a smaller added fraction, and outside the mask,
    the label and the largest added fraction stay as they are. The keys
    of the volumes are kept. *)
Theorem label_changes_only_on_a_strictly_larger_share (st : State) (structure : Structure)
    (st' : State) (label : Q) (seg : list Q) (i : nat) (gi si mi li : Q) :
  process_structure st structure = Ok st' ->
  fst <$> volumes st = volume_keys ->
  tp_segmentation (effective_properties structure) = Some label ->
  get_volume SEGMENTATION (volumes st) = Some seg ->
  global_volume_fractions st !! i = Some gi ->
  geometrical_volume structure !! i = Some si ->
  max_added_fractions st !! i = Some mi ->
  seg !! i = Some li ->
  let a := added_at gi si in
  let wins := float_lt mi a && eligible_at gi si in
  exists seg',
    get_volume SEGMENTATION (volumes st') = Some seg'
    /\ fst <$> volumes st' = volume_keys
    /\ seg' !! i = Some (if wins then label else li)
    /\ max_added_fractions st' !! i = Some (if wins then a else mi).
Proof.
  intros Hturn Hkeys Hlabel Hseg Hg Hs Hmx Hli a wins.
  apply process_structure_Ok in Hturn as (_ & _ & _ & _ & Hvols & _).
  destruct (update_volumes_segmentation (effective_properties structure)
              (added_volume_fraction (global_volume_fractions st)
                 (geometrical_volume structure))
              (eligible_mask (global_volume_fractions st) (geometrical_volume structure))
              (max_added_fractions st) (volumes st) label Hkeys Hlabel)
    as (vols' & seg0 & Hfold & Hkeys' & Hseg0 & Hseg').
  rewrite Hfold in Hvols. injection Hvols as Hv Hm. rewrite Hv, Hm.
  rewrite Hseg in Hseg0. injection Hseg0 as <-.
  pose proof (eligible_mask_lookup _ _ i gi si Hg Hs) as Hmask.
  pose proof (added_volume_fraction_lookup _ _ i gi si Hg Hs) as Hadded.
  assert (Hgreater :
            mask_and (gt_tensor
                        (added_volume_fraction (global_volume_fractions st)
                           (geometrical_volume structure))
                        (max_added_fractions st))
              (eligible_mask (global_volume_fractions st) (geometrical_volume structure))
            !! i = Some wins).
  { unfold mask_and, gt_tensor. by rewrite !lookup_zip_with, Hadded, Hmx, Hmask. }
  eexists. split; [exact Hseg'|]. split; [done|]. split.
  - by rewrite (masked_fill_lookup seg _ label i li wins).
  - by rewrite (masked_assign_lookup (max_added_fractions st) _ _ i mi wins a).
Qed.

End PassMore.

Section PassExamples.

Local Open Scope Q_scope.

Local Abbreviation returned := (fun (r : result State) (otherwise : State) =>
  match r with Ok st => st | Raise _ => otherwise end).

Lemma voxel_outside_the_mask_is_left_alone_witness :
  let st := initial_state column_settings 1 in
  let st' := returned (process_structure 6 7 8 9 column_settings st absent_structure) st in
  (process_structure 6 7 8 9 column_settings st absent_structure = Ok st'
   /\ global_volume_fractions st !! 0%nat = Some 0
   /\ geometrical_volume absent_structure !! 0%nat = Some 0
   /\ max_added_fractions st !! 0%nat = Some 0
   /\ (0 <= 0 \/ 1 <= 0))
  /\ (global_volume_fractions st' !! 0%nat = Some 0
      /\ max_added_fractions st' !! 0%nat = Some 0
      /\ Forall2 (same_at 0) (volumes st) (volumes st')).
Proof.
  intros st st'.
  assert (H1 : process_structure 6 7 8 9 column_settings st absent_structure = Ok st')
    by (vm_compute; reflexivity).
  assert (H2 : global_volume_fractions st !! 0%nat = Some 0) by reflexivity.
  assert (H3 : geometrical_volume absent_structure !! 0%nat = Some 0) by reflexivity.
  assert (H4 : max_added_fractions st !! 0%nat = Some 0) by reflexivity.
  assert (H5 : 0 <= 0 \/ 1 <= 0) by (left; lra).
  split; [exact (conj H1 (conj H2 (conj H3 (conj H4 H5))))|].
  exact (voxel_outside_the_mask_is_left_alone 6 7 8 9 column_settings st absent_structure
           st' 0 0 0 0 H1 H2 H3 H4 H5).
Defined.

Lemma voxel_in_the_mask_takes_its_share_witness :
  let st := initial_state column_settings 1 in
  let st' := returned (process_structure 6 7 8 9 column_settings st structure_A) st in
  let props := vessel_override 6 7 8 9 structure_A
                 (properties_for_wavelength structure_A (WAVELENGTH column_settings)) in
  (process_structure 6 7 8 9 column_settings st structure_A = Ok st'
   /\ global_volume_fractions st !! 0%nat = Some 0
   /\ geometrical_volume structure_A !! 0%nat = Some (6 # 10)
   /\ 0 <= 0 /\ 0 < 1 /\ 0 < 6 # 10 /\ 6 # 10 <= 1)
  /\ (let a := added_at 0 (6 # 10) in
      a == (if Qle_bool (6 # 10) (1 - 0) then 6 # 10 else 1 - 0)
      /\ global_volume_fractions st' !! 0%nat = Some (0 + a)
      /\ Forall2 (gains_at props a 0) (volumes st) (volumes st')).
Proof.
  intros st st' props.
  assert (H1 : process_structure 6 7 8 9 column_settings st structure_A = Ok st')
    by (vm_compute; reflexivity).
  assert (H2 : global_volume_fractions st !! 0%nat = Some 0) by reflexivity.
  assert (H3 : geometrical_volume structure_A !! 0%nat = Some (6 # 10)) by reflexivity.
  assert (H4 : 0 <= 0) by lra.
  assert (H5 : 0 < 1) by lra.
  assert (H6 : 0 < 6 # 10) by lra.
  assert (H7 : 6 # 10 <= 1) by lra.
  split; [exact (conj H1 (conj H2 (conj H3 (conj H4 (conj H5 (conj H6 H7))))))|].
  exact (voxel_in_the_mask_takes_its_share 6 7 8 9 column_settings st structure_A
           st' 0 0 (6 # 10) H1 H2 H3 H4 H5 H6 H7).
Defined.

Lemma global_occupancy_is_the_capped_sum_witness :
  (np_index (y_dim_px column_settings)
     (py_int ((DIM_VOLUME_Y_MM column_settings / 2) / SPACING_MM column_settings))
   = Ok 0%nat
   /\ Forall (well_shaped column_settings) [structure_A; structure_B]
   /\ (0 < grid_size column_settings)%nat)
  /\ exists st g,
       create_simulation_volume 6 7 8 9 column_settings [structure_A; structure_B] = Ok st
       /\ global_volume_fractions st !! 0%nat = Some g
       /\ (occupancy_sum 0 [structure_A; structure_B] <= 1
           -> g == occupancy_sum 0 [structure_A; structure_B])
       /\ (1 <= occupancy_sum 0 [structure_A; structure_B] -> g == 1).
Proof.
  assert (H1 : np_index (y_dim_px column_settings)
                 (py_int ((DIM_VOLUME_Y_MM column_settings / 2) / SPACING_MM column_settings))
               = Ok 0%nat) by reflexivity.
  assert (H2 : Forall (well_shaped column_settings) [structure_A; structure_B])
    by apply column_structures_well_shaped.
  assert (H3 : (0 < grid_size column_settings)%nat) by (vm_compute; lia).
  split; [exact (conj H1 (conj H2 H3))|].
  exact (global_occupancy_is_the_capped_sum 6 7 8 9 column_settings
           [structure_A; structure_B] 0 0 H1 H2 H3).
Defined.

Lemma each_structure_fills_its_own_plane_witness :
  let structures := [structure_A; structure_B] in
  let start := initial_state column_settings 2 in
  let stk := returned (state_after 6 7 8 9 column_settings 1 structures) start in
  let st := returned (create_simulation_volume 6 7 8 9 column_settings structures) start in
  (create_simulation_volume 6 7 8 9 column_settings structures = Ok st
   /\ structures !! 1%nat = Some structure_B
   /\ state_after 6 7 8 9 column_settings 1 structures = Ok stk)
  /\ exists j,
       np_index (y_dim_px column_settings)
         (py_int ((DIM_VOLUME_Y_MM column_settings / 2) / SPACING_MM column_settings))
       = Ok j
       /\ n stk = 1%nat
       /\ structures_filling st !! 1%nat
          = Some (audit_plane column_settings
                    (added_volume_fraction (global_volume_fractions stk)
                       (geometrical_volume structure_B)) j).
Proof.
  intros structures start stk st.
  assert (H1 : create_simulation_volume 6 7 8 9 column_settings structures = Ok st)
    by (vm_compute; reflexivity).
  assert (H2 : structures !! 1%nat = Some structure_B) by reflexivity.
  assert (H3 : state_after 6 7 8 9 column_settings 1 structures = Ok stk)
    by (vm_compute; reflexivity).
  split; [exact (conj H1 (conj H2 H3))|].
  exact (each_structure_fills_its_own_plane 6 7 8 9 column_settings structures 1
           structure_B stk st H1 H2 H3).
Defined.

Lemma label_changes_only_on_a_strictly_larger_share_witness :
  let st := initial_state column_settings 1 in
  let st' := returned (process_structure 6 7 8 9 column_settings st structure_A) st in
  let props := vessel_override 6 7 8 9 structure_A
                 (properties_for_wavelength structure_A (WAVELENGTH column_settings)) in
  (process_structure 6 7 8 9 column_settings st structure_A = Ok st'
   /\ fst <$> volumes st = volume_keys
   /\ tp_segmentation props = Some 2
   /\ get_volume SEGMENTATION (volumes st) = Some [0; 0]
   /\ global_volume_fractions st !! 0%nat = Some 0
   /\ geometrical_volume structure_A !! 0%nat = Some (6 # 10)
   /\ max_added_fractions st !! 0%nat = Some 0
   /\ [0; 0] !! 0%nat = Some 0)
  /\ (let a := added_at 0 (6 # 10) in
      let wins := float_lt 0 a && eligible_at 0 (6 # 10) in
      exists seg',
        get_volume SEGMENTATION (volumes st') = Some seg'
        /\ fst <$> volumes st' = volume_keys
        /\ seg' !! 0%nat = Some (if wins then 2 else 0)
        /\ max_added_fractions st' !! 0%nat = Some (if wins then a else 0)).
Proof.
  intros st st' props.
  assert (H1 : process_structure 6 7 8 9 column_settings st structure_A = Ok st')
    by (vm_compute; reflexivity).
  assert (H2 : fst <$> volumes st = volume_keys) by reflexivity.
  assert (H3 : tp_segmentation props = Some 2) by reflexivity.
  assert (H4 : get_volume SEGMENTATION (volumes st) = Some [0; 0]) by reflexivity.
  assert (H5 : global_volume_fractions st !! 0%nat = Some 0) by reflexivity.
  assert (H6 : geometrical_volume structure_A !! 0%nat = Some (6 # 10)) by reflexivity.
  assert (H7 : max_added_fractions st !! 0%nat = Some 0) by reflexivity.
  assert (H8 : [0; 0] !! 0%nat = Some 0) by reflexivity.
  split; [exact (conj H1 (conj H2 (conj H3 (conj H4 (conj H5 (conj H6 (conj H7 H8)))))))|].
  exact (label_changes_only_on_a_strictly_larger_share 6 7 8 9 column_settings st structure_A
           st' 2 [0; 0] 0 0 (6 # 10) 0 0 H1 H2 H3 H4 H5 H6 H7 H8).
Defined.

End PassExamples.
